(** * NeuroVA visualizer shaders: a shallow embedding of the WGSL programs

    The four render modes of the visualizer are WGSL programs:
    - [WaveformSDF]    : [src/eeg_shader.wgsl] (distance-field waveform),
    - [WaveformDirect] : [neuro_visualizer/src/eeg_shader.wgsl] (line strip),
    - [ColumnGlow]     : [src/shader.wgsl] (additive glow per column),
    - [OrganicNoise]   : the awareness-driven simplex-noise background.

    Number model.  An [f32] is modelled by a real number: arithmetic is
    exact, rounding and overflow are not modelled.  The operations that WGSL
    leaves indeterminate are partial and return [None]: a division whose
    divisor is zero and a read outside an array.  A [u32] is an integer in
    [0, 2^32) and its arithmetic wraps around.

    Where rounding decides a property (whether two segment end points
    coincide), the expressions concerned are evaluated a second time in
    IEEE 754 binary32, in [WaveformSDF32]. *)

From Stdlib Require Import ZArith List Reals Lra Lia Psatz.
From Stdlib Require Import Permutation.
From Stdlib Require QArith Qround String DecimalString SpecFloat.
Import ListNotations.
Local Open Scope R_scope.

(** ** WGSL scalars, vectors and builtin functions *)
Module Wgsl.

(** Indeterminate results propagate: the option monad. *)
Definition bind {A B : Type} (m : option A) (k : A -> option B) : option B :=
  match m with
  | Some a => k a
  | None => None
  end.

Notation "x <- m ;; k" := (bind m (fun x => k))
  (at level 61, m at next level, right associativity).

(** *** u32 *)
Definition u32_modulus : Z := 4294967296.

Definition u32 (z : Z) : Z := (z mod u32_modulus)%Z.

Definition u32_add (a b : Z) : Z := u32 (a + b).

Definition u32_sub (a b : Z) : Z := u32 (a - b).

Definition u32_div (a b : Z) : Z := (a / b)%Z.

Definition u32_rem (a b : Z) : Z := (a mod b)%Z.

(** [f32(e)] for a [u32] value, without rounding: exact up to 2^24, the
    largest integer range that binary32 represents without gaps. *)
Definition f32 (n : Z) : R := IZR n.

(** *** Arrays *)

(** [arrayLength(&a)]; the result has type [u32]. *)
Definition arrayLength {A : Type} (a : list A) : Z := u32 (Z.of_nat (length a)).

(** [a[i]]: a read at or beyond the end is indeterminate. *)
Definition index {A : Type} (a : list A) (i : Z) : option A :=
  if (i <? 0)%Z then None else nth_error a (Z.to_nat i).

(** *** Loops

    [for (var i = 0u; i < bound; i = i + 1u) { acc = body(i, acc); }].
    The body changes neither [i] nor [bound], so the loop makes [bound]
    trips with [i = 0, 1, ..., bound - 1]. *)
Fixpoint for_from {A : Type} (trips : nat) (i : Z)
    (body : Z -> A -> option A) (acc : A) : option A :=
  match trips with
  | O => Some acc
  | S trips' => acc' <- body i acc ;; for_from trips' (u32_add i 1) body acc'
  end.

Definition for_u32 {A : Type} (bound : Z) (body : Z -> A -> option A) (init : A)
  : option A :=
  for_from (Z.to_nat bound) 0%Z body init.

(** *** Scalar builtins *)

(** [a / b] with a divisor that is not a literal. *)
Definition fdiv (a b : R) : option R :=
  if Req_dec_T b 0 then None else Some (a / b).

Definition clamp (e low high : R) : R := Rmin (Rmax e low) high.

Definition smoothstep (low high x : R) : option R :=
  q <- fdiv (x - low) (high - low) ;;
  let t := clamp q 0 1 in
  Some (t * t * (3 - 2 * t)).

Definition mix (e1 e2 e3 : R) : R := e1 * (1 - e3) + e2 * e3.

Definition floor (e : R) : R := IZR (Int_part e).

Definition fract (e : R) : R := e - floor e.

(** *** Vectors *)
Record vec2 : Type := Vec2 { x2 : R; y2 : R }.

Record vec3 : Type := Vec3 { x3 : R; y3 : R; z3 : R }.

Record vec4 : Type := Vec4 { x4 : R; y4 : R; z4 : R; w4 : R }.

Definition map2 (f : R -> R) (v : vec2) : vec2 := Vec2 (f (x2 v)) (f (y2 v)).

Definition zip2 (f : R -> R -> R) (a b : vec2) : vec2 :=
  Vec2 (f (x2 a) (x2 b)) (f (y2 a) (y2 b)).

Definition map3 (f : R -> R) (v : vec3) : vec3 :=
  Vec3 (f (x3 v)) (f (y3 v)) (f (z3 v)).

Definition zip3 (f : R -> R -> R) (a b : vec3) : vec3 :=
  Vec3 (f (x3 a) (x3 b)) (f (y3 a) (y3 b)) (f (z3 a) (z3 b)).

(** vector (op) vector, componentwise *)
Definition add2 : vec2 -> vec2 -> vec2 := zip2 Rplus.
Definition sub2 : vec2 -> vec2 -> vec2 := zip2 Rminus.
Definition mul2 : vec2 -> vec2 -> vec2 := zip2 Rmult.
Definition add3 : vec3 -> vec3 -> vec3 := zip3 Rplus.
Definition sub3 : vec3 -> vec3 -> vec3 := zip3 Rminus.
Definition mul3 : vec3 -> vec3 -> vec3 := zip3 Rmult.
Definition max3 : vec3 -> vec3 -> vec3 := zip3 Rmax.

(** vector (op) scalar: the scalar is applied to every component *)
Definition adds2 (v : vec2) (s : R) : vec2 := map2 (fun c => c + s) v.
Definition subs2 (v : vec2) (s : R) : vec2 := map2 (fun c => c - s) v.
Definition scale2 (v : vec2) (s : R) : vec2 := map2 (fun c => c * s) v.
Definition divs2 (v : vec2) (s : R) : vec2 := map2 (fun c => c / s) v.
Definition adds3 (v : vec3) (s : R) : vec3 := map3 (fun c => c + s) v.
Definition subs3 (v : vec3) (s : R) : vec3 := map3 (fun c => c - s) v.
Definition scale3 (v : vec3) (s : R) : vec3 := map3 (fun c => c * s) v.

(** scalar (op) vector *)
Definition smul2 (s : R) (v : vec2) : vec2 := map2 (fun c => s * c) v.
Definition sadd3 (s : R) (v : vec3) : vec3 := map3 (fun c => s + c) v.
Definition ssub3 (s : R) (v : vec3) : vec3 := map3 (fun c => s - c) v.
Definition smul3 (s : R) (v : vec3) : vec3 := map3 (fun c => s * c) v.

(** vector / scalar and vector / vector with divisors that are not literals *)
Definition fdivs2 (v : vec2) (s : R) : option vec2 :=
  a <- fdiv (x2 v) s ;;
  b <- fdiv (y2 v) s ;;
  Some (Vec2 a b).

Definition fdiv2 (v d : vec2) : option vec2 :=
  a <- fdiv (x2 v) (x2 d) ;;
  b <- fdiv (y2 v) (y2 d) ;;
  Some (Vec2 a b).

Definition dot2 (a b : vec2) : R := x2 a * x2 b + y2 a * y2 b.

Definition dot3 (a b : vec3) : R := x3 a * x3 b + y3 a * y3 b + z3 a * z3 b.

Definition length2 (v : vec2) : R := sqrt (dot2 v v).

Definition distance2 (a b : vec2) : R := length2 (sub2 a b).

Definition mix3 (a b : vec3) (t : R) : vec3 := zip3 (fun p q => mix p q t) a b.

(** [e1 > e2] as a [bool], and [select(f, t, cond)]. *)
Definition gt (e1 e2 : R) : bool := if Rlt_dec e2 e1 then true else false.

Definition select {A : Type} (f t : A) (cond : bool) : A := if cond then t else f.

(** The swizzle [v.xy] of a [vec4]. *)
Definition xy (v : vec4) : vec2 := Vec2 (x4 v) (y4 v).

(** [vec4<f32>(v, w)] for a [vec3] and a scalar. *)
Definition vec4_of3 (v : vec3) (w : R) : vec4 := Vec4 (x3 v) (y3 v) (z3 v) w.

End Wgsl.

(** ** Waveform-SDF renderer: [src/eeg_shader.wgsl] *)
Module WaveformSDF.
Import Wgsl.

Record Uniforms : Type := {
  time : R;
  resolution_x : R;
  resolution_y : R;
  num_columns : Z
}.

Record VertexOutput : Type := {
  clip_position : vec4;
  frag_coord : vec2
}.

Definition pos : list vec2 := [Vec2 (-1) (-1); Vec2 3 (-1); Vec2 (-1) 3].

Definition vs_main (in_vertex_index : Z) : option VertexOutput :=
  p <- index pos in_vertex_index ;;
  Some {| clip_position := Vec4 (x2 p) (y2 p) 0 1; frag_coord := p |}.

Definition dist_to_segment (p a b : vec2) : option R :=
  let pa := sub2 p a in
  let ba := sub2 b a in
  q <- fdiv (dot2 pa ba) (dot2 ba ba) ;;
  let h := clamp q 0 1 in
  Some (length2 (sub2 pa (scale2 ba h))).

(** The resolution as a vector, as the fragment stage builds it. *)
Definition resolution (uniforms : Uniforms) : vec2 :=
  Vec2 (resolution_x uniforms) (resolution_y uniforms).

(** The pixel coordinate of the fragment (first two lines of [fs_main]). *)
Definition frag_coord_px (uniforms : Uniforms) (inp : VertexOutput) : vec2 :=
  let uv := divs2 (adds2 (frag_coord inp) 1) 2 in
  mul2 uv (resolution uniforms).

(** The end points [p1], [p2] of segment [i], as the loop body computes them. *)
Definition segment (uniforms : Uniforms) (eeg_data : list R) (i : Z)
  : option (vec2 * vec2) :=
  let num_points := arrayLength eeg_data in
  t1 <- fdiv (f32 i) (f32 (u32_sub num_points 1)) ;;
  e1 <- index eeg_data i ;;
  let p1_norm := Vec2 t1 ((e1 + 1) / 2) in
  t2 <- fdiv (f32 (u32_add i 1)) (f32 (u32_sub num_points 1)) ;;
  e2 <- index eeg_data (u32_add i 1) ;;
  let p2_norm := Vec2 t2 ((e2 + 1) / 2) in
  let p1 := mul2 p1_norm (resolution uniforms) in
  let p2 := mul2 p2_norm (resolution uniforms) in
  Some (p1, p2).

(** One trip of the loop: [min_dist = min(min_dist, dist_to_segment(..))]. *)
Definition loop_body (uniforms : Uniforms) (eeg_data : list R) (px : vec2)
    (i : Z) (min_dist : R) : option R :=
  s <- segment uniforms eeg_data i ;;
  d <- dist_to_segment px (fst s) (snd s) ;;
  Some (Rmin min_dist d).

(** The loop of [fs_main]: the distance to the closest segment. *)
Definition min_distance (uniforms : Uniforms) (eeg_data : list R) (px : vec2)
  : option R :=
  let num_points := arrayLength eeg_data in
  for_u32 (u32_sub num_points 1) (loop_body uniforms eeg_data px) 1e9.

Definition line_color : vec3 := Vec3 0 1 0.8.

Definition glow_radius_px : R := 10.

Definition line_width_px : R := 1.5.

Definition fs_main (uniforms : Uniforms) (eeg_data : list R) (inp : VertexOutput)
  : option vec4 :=
  min_dist <- min_distance uniforms eeg_data (frag_coord_px uniforms inp) ;;
  intensity <- smoothstep glow_radius_px 0 min_dist ;;
  core_line <- smoothstep line_width_px 0 min_dist ;;
  let final_color := scale3 line_color (intensity * 0.5 + core_line * 0.5) in
  let final_alpha := intensity in
  Some (vec4_of3 final_color final_alpha).

End WaveformSDF.

(** ** The segment end points of the Waveform-SDF loop in binary32

    The expressions of [WaveformSDF.segment] and the quotient of
    [WaveformSDF.dist_to_segment], evaluated in IEEE 754 binary32 (24-bit
    significand, rounding to nearest, ties to even). *)
Module WaveformSDF32.
Import SpecFloat.

Definition prec : Z := 24.

Definition emax : Z := 128.



Definition sub : spec_float -> spec_float -> spec_float := SFsub prec emax.

Definition mul : spec_float -> spec_float -> spec_float := SFmul prec emax.


Record vec2 : Type := Vec2 { x2 : spec_float; y2 : spec_float }.

Definition sub2 (a b : vec2) : vec2 := Vec2 (sub (x2 a) (x2 b)) (sub (y2 a) (y2 b)).

Definition mul2 (a b : vec2) : vec2 := Vec2 (mul (x2 a) (x2 b)) (mul (y2 a) (y2 b)).




End WaveformSDF32.

(** ** Waveform-Direct renderer: [neuro_visualizer/src/eeg_shader.wgsl] *)
Module WaveformDirect.
Import Wgsl.

(** A [vec4<f32>] whose components are computed independently of each other:
    each one is a number or indeterminate. *)
Record ovec4 : Type := OVec4 {
  ox : option R;
  oy : option R;
  oz : option R;
  ow : option R
}.

Record VertexOutput : Type := { clip_position : ovec4 }.

Definition vs_main (eeg_data : list R) (in_vertex_index : Z) : VertexOutput :=
  let num_points := arrayLength eeg_data in
  if (in_vertex_index >=? num_points)%Z then
    {| clip_position := OVec4 (Some (-2)) (Some (-2)) (Some 0) (Some 1) |}
  else
    let x :=
      t <- fdiv (f32 in_vertex_index) (f32 (u32_sub num_points 1)) ;;
      Some (-1 + t * 2) in
    let y :=
      e <- index eeg_data in_vertex_index ;;
      Some (e * 0.5) in
    {| clip_position := OVec4 x y (Some 0) (Some 1) |}.

Definition fs_main : vec4 := Vec4 0.1 0.8 0.4 1.

End WaveformDirect.

(** ** Column-Glow renderer: [src/shader.wgsl] *)
Module ColumnGlow.
Import Wgsl.

Definition vs_main (in_vertex_index : Z) : vec4 :=
  let x := f32 (u32_div in_vertex_index 2) * 4 - 1 in
  let y := f32 (u32_rem in_vertex_index 2) * 4 - 1 in
  Vec4 x y 0 1.

Record Column : Type := {
  pos : vec2;
  state : R
}.

Record Uniforms : Type := {
  time : R;
  resolution_x : R;
  resolution_y : R;
  num_columns : Z
}.

Definition circle (uv center : vec2) (radius blur : R) : option R :=
  let d := distance2 uv center in
  smoothstep radius (radius - blur) d.

(** The initial value of [final_color]. *)
Definition background : vec3 := Vec3 0 0 0.02.

Definition base_color : vec3 := Vec3 0.1 0.7 0.9.

(** One trip of the loop over the columns.  [uv] is computed before the loop
    and may be indeterminate; it is read only by the call of [circle], that
    is, only for a column that passes the test on [intensity]. *)
Definition loop_body (columns : list Column) (uv : option vec2) (i : Z)
    (final_color : vec3) : option vec3 :=
  col <- index columns i ;;
  intensity <- smoothstep 0 0.8 (state col) ;;
  if gt intensity 0.01 then
    p <- uv ;;
    cov <- circle p (pos col) 0.03 (0.03 * 0.9) ;;
    let c := cov * intensity in
    Some (add3 final_color (scale3 (smul3 c base_color) 1.5))
  else
    Some final_color.

(** The loop of [fs_main] run for [n] trips. *)
Definition composite (n : Z) (columns : list Column) (uv : option vec2)
  : option vec3 :=
  for_u32 n (loop_body columns uv) background.

(** [uv]: centred coordinates corrected for the aspect ratio. *)
Definition centered_uv (uniforms : Uniforms) (frag_coord : vec4) : option vec2 :=
  let resolution := Vec2 (resolution_x uniforms) (resolution_y uniforms) in
  fdivs2 (sub2 (xy frag_coord) (smul2 0.5 resolution)) (y2 resolution).

Definition fs_main (uniforms : Uniforms) (columns : list Column) (frag_coord : vec4)
  : option vec4 :=
  let uv := centered_uv uniforms frag_coord in
  let num_columns := arrayLength columns in
  final_color <- composite num_columns columns uv ;;
  Some (vec4_of3 final_color 1).

End ColumnGlow.

(** ** Organic-Noise renderer: the simplex-noise background shader *)
Module OrganicNoise.
Import Wgsl.

Definition vs_main (in_vertex_index : Z) : vec4 :=
  let x := f32 (u32_div in_vertex_index 2) * 4 - 1 in
  let y := f32 (u32_rem in_vertex_index 2) * 4 - 1 in
  Vec4 x y 0 1.

Record Uniforms : Type := {
  time : R;
  resolution_x : R;
  resolution_y : R;
  awareness_level : R
}.

(** [x - floor(x * (1.0 / 289.0)) * 289.0].  Over the reals the result lies
    in [0, 289); the rounding of the product in binary32 is not modelled. *)
Definition mod289_v3 (x : vec3) : vec3 :=
  sub3 x (scale3 (map3 floor (scale3 x (1 / 289))) 289).

Definition mod289_v2 (x : vec2) : vec2 :=
  sub2 x (scale2 (map2 floor (scale2 x (1 / 289))) 289).

Definition permute (x : vec3) : vec3 :=
  mod289_v3 (mul3 (adds3 (scale3 x 34) 1) x).

Definition snoise (v : vec2) : R :=
  let C := Vec4 0.2113248654 0.3660254038 (-0.5773502692) 0.0243902439 in
  let Cxx := Vec2 (x4 C) (x4 C) in
  let Cyy := Vec2 (y4 C) (y4 C) in
  let Cwww := Vec3 (w4 C) (w4 C) (w4 C) in
  let i := map2 floor (adds2 v (dot2 v Cyy)) in
  let x0 := adds2 (sub2 v i) (dot2 i Cxx) in
  let i1 := select (Vec2 0 1) (Vec2 1 0) (gt (x2 x0) (y2 x0)) in
  let x1 := add2 (sub2 x0 i1) Cxx in
  let x2' := add2 (subs2 x0 1) (smul2 2 Cxx) in
  let i := mod289_v2 i in
  let p :=
    permute (add3 (adds3 (permute (sadd3 (y2 i) (Vec3 0 (y2 i1) 1))) (x2 i))
                  (Vec3 0 (x2 i1) 1)) in
  let m := max3 (ssub3 0.5 (Vec3 (dot2 x0 x0) (dot2 x1 x1) (dot2 x2' x2')))
                (Vec3 0 0 0) in
  let m := mul3 m m in
  let m := mul3 m m in
  let x := subs3 (smul3 2 (map3 fract (mul3 p Cwww))) 1 in
  let h := subs3 (map3 Rabs x) 0.5 in
  let ox := map3 floor (adds3 x 0.5) in
  let a0 := sub3 x ox in
  let m :=
    mul3 m (ssub3 1.79284291400159
                  (smul3 0.85373472095314 (add3 (mul3 a0 a0) (mul3 h h)))) in
  let g := Vec3 (x3 a0 * x2 x0 + x3 h * y2 x0)
                (y3 a0 * x2 x1 + y3 h * y2 x1)
                (z3 a0 * x2 x2' + z3 h * y2 x2') in
  130 * dot3 m g.

(** The control parameters that [fs_main] derives from the awareness level. *)
Definition time_speed (awareness : R) : R := mix 2.0 0.1 awareness.

Definition zoom (awareness : R) : R := mix 5.0 2.0 awareness.

Definition distortion_amount (awareness : R) : R := mix 0.8 0.0 awareness.

(** The weight of [bright_color] in the last [mix] of [fs_main]. *)
Definition bright_weight (awareness : R) : R := awareness * awareness.

Definition dark_color : vec3 := Vec3 0.0 0.0 0.05.

Definition mid_color : vec3 := Vec3 0.1 0.3 0.8.

Definition bright_color : vec3 := Vec3 0.8 0.9 1.0.

Definition fs_main (uniforms : Uniforms) (frag_coord : vec4) : option vec4 :=
  let resolution := Vec2 (resolution_x uniforms) (resolution_y uniforms) in
  uv <- fdiv2 (xy frag_coord) resolution ;;
  let awareness := awareness_level uniforms in
  let p := scale2 uv (zoom awareness) in
  let t := time uniforms * time_speed awareness in
  let f := 0.0 in
  let f := f + 0.5000 * snoise (adds2 p t) in
  let f := f + 0.2500 * snoise (adds2 (scale2 p 2.0) (t * 1.5)) in
  let f := f + 0.1250 * snoise (adds2 (scale2 p 4.0) (t * 2.0)) in
  let f := f + 0.0625 * snoise (adds2 (scale2 p 8.0) (t * 2.5)) in
  let q := Vec2 f f in
  let warp := scale2 q (distortion_amount awareness) in
  let r := Vec2
    (snoise (adds2 (add2 (add2 p warp) (Vec2 1.7 9.2)) t))
    (snoise (adds2 (add2 (add2 p warp) (Vec2 8.3 2.8)) t)) in
  s <- smoothstep (-0.1) 0.4 (x2 r) ;;
  let color := mix3 dark_color mid_color s in
  let color := mix3 color bright_color (bright_weight awareness) in
  Some (vec4_of3 color 1.0).

End OrganicNoise.

(** ** Vocabulary of the statements *)
Module Geometry.
Import Wgsl.

(** A coordinate that is a number outside the clip range [-1, 1]. *)
Definition outside_clip (c : option R) : Prop :=
  exists v, c = Some v /\ (v < -1 \/ 1 < v).

(** The clip-space square [-1,1] x [-1,1]. *)
Definition in_clip_square (p : vec2) : Prop :=
  -1 <= x2 p <= 1 /\ -1 <= y2 p <= 1.

(** [p] is a convex combination of the corners [a], [b], [c]. *)
Definition in_triangle (a b c p : vec2) : Prop :=
  exists l1 l2 l3 : R,
    0 <= l1 /\ 0 <= l2 /\ 0 <= l3 /\ l1 + l2 + l3 = 1 /\
    x2 p = l1 * x2 a + l2 * x2 b + l3 * x2 c /\
    y2 p = l1 * y2 a + l2 * y2 b + l3 * y2 c.


(** Componentwise order on colours. *)
Definition le3 (a b : vec3) : Prop :=
  x3 a <= x3 b /\ y3 a <= y3 b /\ z3 a <= z3 b.

End Geometry.

(** ** The glow of one column, in closed form *)
Module GlowSpec.
Import Wgsl ColumnGlow.

(** The value of [smoothstep(low, high, x)] when the edges differ. *)
Definition smoothstep_val (low high x : R) : R :=
  let t := clamp ((x - low) / (high - low)) 0 1 in
  t * t * (3 - 2 * t).

Definition coverage (uv : vec2) (col : Column) : R :=
  smoothstep_val 0.03 (0.03 - 0.03 * 0.9) (distance2 uv (pos col)).

Definition intensity (col : Column) : R := smoothstep_val 0 0.8 (state col).

(** [coverage * intensity * base_hue * 1.5]. *)
Definition contribution (uv : vec2) (col : Column) : vec3 :=
  scale3 (smul3 (coverage uv col * intensity col) base_color) 1.5.

(** The shader's rule: a column is kept when [intensity > 0.01]. *)
Definition kept_by_intensity (col : Column) : bool := gt (intensity col) 0.01.

(** The rule in the words of the specification: a column is skipped when
    [coverage * intensity < 0.01]. *)
Definition kept_by_product (uv : vec2) (col : Column) : bool :=
  negb (gt 0.01 (coverage uv col * intensity col)).

(** Additive accumulation over the columns on top of the background. *)
Definition accumulate (keep : Column -> bool) (uv : vec2) (columns : list Column)
  : vec3 :=
  fold_left
    (fun final_color col =>
       if keep col then add3 final_color (contribution uv col) else final_color)
    columns background.

(** The fragment stage with the unit count taken from the uniform slot. *)
Definition fs_main_by_slot (uniforms : Uniforms) (columns : list Column)
    (frag_coord : vec4) : option vec4 :=
  let uv := centered_uv uniforms frag_coord in
  final_color <- composite (num_columns uniforms) columns uv ;;
  Some (vec4_of3 final_color 1).

(** [uniforms] with another value in the last slot. *)
Definition with_slot (uniforms : Uniforms) (n : Z) : Uniforms :=
  {| time := time uniforms;
     resolution_x := resolution_x uniforms;
     resolution_y := resolution_y uniforms;
     num_columns := n |}.

End GlowSpec.

(** Two one-column frames on a 1 x 1 target, seen from the centre fragment:
    a fully active column whose disc edge passes just short of the fragment,
    and a fully active column centred on the fragment while the uniform slot
    holds 0. *)
Module GlowExample.
Import Wgsl ColumnGlow.

Definition unit_target (slot : Z) : Uniforms :=
  {| time := 0; resolution_x := 1; resolution_y := 1; num_columns := slot |}.

Definition centre_frag : vec4 := Vec4 0.5 0.5 0 1.

Definition edge_column : Column := {| pos := Vec2 0.02865 0; state := 1 |}.

Definition centre_column : Column := {| pos := Vec2 0 0; state := 1 |}.

End GlowExample.

(** ** The particle field of the web front end ([Particles], the component
    that [ParticleField] mounts)

    JavaScript numbers are modelled like [f32]: exact reals, with [None] for
    a quotient whose divisor is zero and for arithmetic on a typed-array
    read outside the array. *)
Module ParticleField.
Import Wgsl.

(** A [Float32Array]: a read outside the array is [undefined], a write
    outside the array is ignored. *)
Definition get (a : list R) (i : nat) : option R := nth_error a i.

Fixpoint set (a : list R) (i : nat) (v : R) : list R :=
  match a, i with
  | [], _ => []
  | _ :: rest, O => v :: rest
  | e :: rest, S i' => e :: set rest i' v
  end.

(** The three arrays that [useMemo] allocates. *)
Record Buffers : Type := {
  positions : list R;
  velocities : list R;
  accelerations : list R
}.

(** [THREE.Vector3]. *)
Record Vector3 : Type := V3 { vx : R; vy : R; vz : R }.

Definition fromArray (a : list R) (offset : nat) : option Vector3 :=
  x <- get a offset ;;
  y <- get a (offset + 1) ;;
  z <- get a (offset + 2) ;;
  Some (V3 x y z).

Definition distanceTo (a b : Vector3) : R :=
  let dx := vx a - vx b in
  let dy := vy a - vy b in
  let dz := vz a - vz b in
  sqrt (dx * dx + dy * dy + dz * dz).

(** What [useFrame] hands to the callback: the viewport and the pointer. *)
Record FrameInput : Type := {
  viewport_width : R;
  viewport_height : R;
  pointer_x : R;
  pointer_y : R
}.

(** [mouse.set(x * aspect * 2, y * 2, 0)]. *)
Definition mouse_target (inp : FrameInput) : option Vector3 :=
  aspect <- fdiv (viewport_width inp) (viewport_height inp) ;;
  Some (V3 (pointer_x inp * aspect * 2) (pointer_y inp * 2) 0).

(** [force] for a particle at [vec]. *)
Definition force_on (x : R) (mouse vec : Vector3) : option R :=
  let forceDirection := if Rlt_dec x 0 then 1 else -1 in
  let dist := distanceTo vec mouse in
  q <- fdiv forceDirection (Rmax 0.1 (dist * dist)) ;;
  Some (q * 0.015).

(** [a[i] += d] and [a[i] *= k] on a typed array. *)
Definition add_at (a : list R) (i : nat) (d : R) : option (list R) :=
  e <- get a i ;; Some (set a i (e + d)).

Definition scale_at (a : list R) (i : nat) (k : R) : option (list R) :=
  e <- get a i ;; Some (set a i (e * k)).

(** The body of the loop for particle [i]. *)
Definition particle_step (x : R) (mouse : Vector3) (i : nat) (b : Buffers)
  : option Buffers :=
  let i3 := (i * 3)%nat in
  vec <- fromArray (positions b) i3 ;;
  force <- force_on x mouse vec ;;
  acc <- add_at (accelerations b) i3 (force * (vx mouse - vx vec)) ;;
  acc <- add_at acc (i3 + 1) (force * (vy mouse - vy vec)) ;;
  acc <- add_at acc (i3 + 2) (force * (vz mouse - vz vec)) ;;
  a0 <- get acc i3 ;;
  vel <- add_at (velocities b) i3 a0 ;;
  a1 <- get acc (i3 + 1) ;;
  vel <- add_at vel (i3 + 1) a1 ;;
  a2 <- get acc (i3 + 2) ;;
  vel <- add_at vel (i3 + 2) a2 ;;
  v0 <- get vel i3 ;;
  pos <- add_at (positions b) i3 v0 ;;
  v1 <- get vel (i3 + 1) ;;
  pos <- add_at pos (i3 + 1) v1 ;;
  v2 <- get vel (i3 + 2) ;;
  pos <- add_at pos (i3 + 2) v2 ;;
  acc <- scale_at acc i3 0.98 ;;
  acc <- scale_at acc (i3 + 1) 0.98 ;;
  acc <- scale_at acc (i3 + 2) 0.98 ;;
  vel <- scale_at vel i3 0.98 ;;
  vel <- scale_at vel (i3 + 1) 0.98 ;;
  vel <- scale_at vel (i3 + 2) 0.98 ;;
  Some {| positions := pos; velocities := vel; accelerations := acc |}.

(** [for (let i = 0; i < count; i++)] from particle [i] on, [trips] times. *)
Fixpoint particles_from (trips : nat) (i : nat) (x : R) (mouse : Vector3)
    (b : Buffers) : option Buffers :=
  match trips with
  | O => Some b
  | S trips' =>
      b' <- particle_step x mouse i b ;;
      particles_from trips' (S i) x mouse b'
  end.

(** The [useFrame] callback. *)
Definition frame (count : nat) (inp : FrameInput) (b : Buffers) : option Buffers :=
  mouse <- mouse_target inp ;;
  particles_from count 0 (pointer_x inp) mouse b.

(** Successive frames. *)
Fixpoint frames (count : nat) (inputs : list FrameInput) (b : Buffers)
  : option Buffers :=
  match inputs with
  | [] => Some b
  | inp :: rest => b' <- frame count inp b ;; frames count rest b'
  end.

(** The bounds that the damping keeps: each acceleration gain is at most
    [gain_bound] and [0.98 * (a + gain) <= a] at the fixed points below. *)
Definition gain_bound : R := 0.0475.

Definition acceleration_bound : R := 2.3275.

Definition velocity_bound : R := 116.375.

Definition within (bound : R) (a : list R) : Prop :=
  Forall (fun e => - bound <= e <= bound) a.

(** The arrays as [useMemo] fills them: random positions, and zero
    velocities and accelerations. *)
Definition initial_buffers (count : nat) (random_positions : list R) : Buffers :=
  {| positions := random_positions;
     velocities := repeat 0 (count * 3);
     accelerations := repeat 0 (count * 3) |}.

(** The three arrays hold three entries per particle. *)
Definition sized (count : nat) (b : Buffers) : Prop :=
  length (positions b) = (count * 3)%nat /\
  length (velocities b) = (count * 3)%nat /\
  length (accelerations b) = (count * 3)%nat.

(** Accelerations and velocities are within their bounds. *)
Definition damped (b : Buffers) : Prop :=
  within acceleration_bound (accelerations b) /\
  within velocity_bound (velocities b).

End ParticleField.

(** ** The breathing animation of the particle avatar ([animate] in the
    [ThreeScene] component) *)
Module ThreeScene.
Import ParticleField.

(** [Date.now() * 0.0005]; [Date.now()] is a whole number of milliseconds. *)
Definition animation_time (now : Z) : R := IZR now * 0.0005.

(** The position written for a vertex whose original position is
    [(originalX, originalY, originalZ)]. *)
Definition displaced (time : R) (original : Vector3) : Vector3 :=
  let originalX := vx original in
  let originalY := vy original in
  let originalZ := vz original in
  let f := 0.15 in
  let a := 0.2 in
  let xOffset := sin (originalY * f + time * 0.5) * cos (originalZ * f + time * 0.5) * a in
  let yOffset := cos (originalX * f + time * 0.5) * sin (originalZ * f + time * 0.5) * a in
  let zOffset := sin (originalX * f + time * 0.5) * cos (originalY * f + time * 0.5) * a in
  V3 (originalX + xOffset) (originalY + yOffset) (originalZ + zOffset).

(** The loop over the vertices: every position is rewritten from the
    original positions kept in [userData]. *)
Definition animate (now : Z) (originalPositions : list Vector3) : list Vector3 :=
  map (displaced (animation_time now)) originalPositions.

End ThreeScene.

(** ** The memory read-out of the metrics bar ([formatMemory] in the
    [MetricsDisplay] component)

    The kilobyte count is an integer below 2^53, as the server sends it: on
    such a number the divisions by 1024 are exact in double precision, and
    [toFixed] rounds the exact value. *)
Module MetricsDisplay.
Import QArith Qround String DecimalString.

(** [`${kb}`] for an integer. *)
Definition number_to_string (z : Z) : string := NilZero.string_of_int (Z.to_int z).

(** The integer [n] for which [n / 100 - x] is closest to zero, the larger
    one when there are two. *)
Definition nearest_hundredth (x : Q) : Z := Qfloor (x * 100 + (1 # 2))%Q.

(** The digits of [n], padded with zeros to three characters. *)
Definition pad3 (m : string) : string :=
  match String.length m with
  | 1%nat => ("00" ++ m)%string
  | 2%nat => ("0" ++ m)%string
  | _ => m
  end.

(** The decimal point before the last two digits. *)
Definition insert_point (m : string) : string :=
  let k := String.length m in
  (substring 0 (k - 2) m ++ "." ++ substring (k - 2) 2 m)%string.

(** [x.toFixed(2)]. *)
Definition toFixed2 (x : Q) : string :=
  if Qlt_le_dec x 0
  then ("-" ++ insert_point (pad3 (number_to_string (nearest_hundredth (- x)))))%string
  else insert_point (pad3 (number_to_string (nearest_hundredth x))).

Definition formatMemory (kb : Z) : string :=
  if (kb <? 1024)%Z then (number_to_string kb ++ " KB")%string
  else
    let mb := (inject_Z kb / 1024)%Q in
    if Qlt_le_dec mb 1024 then (toFixed2 mb ++ " MB")%string
    else
      let gb := (mb / 1024)%Q in
      (toFixed2 gb ++ " GB")%string.

End MetricsDisplay.

(** ** The chat panel of the web front end ([AgiInterface])

    The component is modelled by its React state and by the handlers that
    update it.  An asynchronous handler is split where it awaits the server:
    the part that runs at once, and the part that runs when the request
    settles, with the server's answer as an input. *)
Module AgiInterface.
Import String.

(** A JavaScript string: the list of its UTF-16 code units. *)
Definition jsstring : Type := list Z.

(** The code units of a literal made of ASCII characters. *)
Definition units (s : string) : jsstring :=
  map (fun c => Z.of_N (Ascii.N_of_ascii c)) (list_ascii_of_string s).

(** The code units that [trim] removes: white space and line terminators. *)
Definition is_white_space (c : Z) : bool :=
  existsb (Z.eqb c)
          [9; 10; 11; 12; 13; 32; 160; 5760; 8232; 8233; 8239; 8287; 12288;
           65279]%Z
  || (Z.leb 8192 c && Z.leb c 8202).

Fixpoint trimStart (s : jsstring) : jsstring :=
  match s with
  | [] => []
  | c :: rest => if is_white_space c then trimStart rest else s
  end.

Definition trim (s : jsstring) : jsstring :=
  rev (trimStart (rev (trimStart s))).

(** The empty string is the only string that is falsy. *)
Definition falsy (s : jsstring) : bool :=
  match s with
  | [] => true
  | _ :: _ => false
  end.

(** A value of a parsed JSON body. *)
#[local] Unset Elimination Schemes.
Inductive Json : Type :=
| JNull
| JBool (b : bool)
| JNumber (n : R)
| JString (s : jsstring)
| JArray (items : list Json)
| JObject (fields : list (jsstring * Json)).
#[local] Set Elimination Schemes.

(** The values that [||] keeps: all but [null], [false], [0] and the empty
    string. *)
Definition truthy (v : Json) : bool :=
  match v with
  | JNull => false
  | JBool b => b
  | JNumber n => if Req_dec_T n 0 then false else true
  | JString s => negb (falsy s)
  | JArray _ | JObject _ => true
  end.

Inductive Sender : Type := user | agi.

(** A message as it is stored.  The interface declares [text] and
    [cognitiveMode] as strings; the reply of the server is stored as it was
    parsed, so both hold any JSON value ([None]: the property is
    [undefined]). *)
Record Message : Type := {
  sender : Sender;
  text : Json;
  cognitiveMode : option Json
}.

Inductive Status : Type := online | offline | loading.

Definition is_online (s : Status) : bool :=
  match s with
  | online => true
  | _ => false
  end.

(** The three [useState] cells. *)
Record State : Type := {
  status : Status;
  messages : list Message;
  input : jsstring
}.

Definition initial : State := {| status := loading; messages := []; input := [] |}.

(** The texts that the component writes itself. *)
Definition greeting : jsstring :=
  units "Connexion " ++ [233%Z] ++ units "tablie. Je suis pr" ++ [234%Z] ++ units "te.".

Definition connection_error : jsstring :=
  units "Erreur de connexion au serveur AGI. Veuillez v" ++ [233%Z]
  ++ units "rifier qu'il est bien d" ++ [233%Z] ++ units "marr" ++ [233%Z] ++ units ".".

Definition no_answer : jsstring :=
  units "Je n'ai pas de r" ++ [233%Z] ++ units "ponse pour le moment.".

Definition stimulation_error : jsstring :=
  units "Erreur lors de la stimulation de l'AGI.".

Definition unreachable : jsstring :=
  units "Impossible de contacter le serveur pour la stimulation.".

(** How [fetch('/api/status')] settles. *)
Inductive StatusReply : Type :=
| StatusJson (status_is_ok : bool)   (* [response.ok]; [data.status === 'ok'] or not *)
| StatusNotOk                        (* [response.ok] is false *)
| StatusThrown.                      (* [fetch] or [json()] threw *)

(** [checkStatus], from the point where the request has settled. *)
Definition checkStatus (r : StatusReply) (st : State) : State :=
  match r with
  | StatusJson true =>
      {| status := online;
         messages :=
           [{| sender := agi; text := JString greeting; cognitiveMode := None |}];
         input := input st |}
  | StatusJson false | StatusNotOk =>
      {| status := offline; messages := messages st; input := input st |}
  | StatusThrown =>
      {| status := offline;
         messages :=
           [{| sender := agi; text := JString connection_error;
               cognitiveMode := None |}];
         input := input st |}
  end.

(** [handleSubmit] up to its [await]: the new state and, when a request is
    sent, its prompt. *)
Definition handleSubmit (st : State) : State * option jsstring :=
  if (falsy (trim (input st)) || negb (is_online (status st)))%bool then (st, None)
  else
    let userMessage :=
      {| sender := user; text := JString (input st); cognitiveMode := None |} in
    ({| status := status st;
        messages := messages st ++ [userMessage];
        input := [] |},
     Some (input st)).

(** How [fetch('/api/stimulate')] settles.  [ReplyJson]: [response.ok] holds
    and the body parses to [data]; its arguments are the values of
    [data.response] and [data.cognitive_mode], any JSON value or [None] when
    the property is [undefined].  [ReplyThrown]: [fetch] or [json()] threw, or
    [data] is [null] and reading its property threw. *)
Inductive StimulateReply : Type :=
| ReplyJson (response : option Json) (cognitive_mode : option Json)
| ReplyNotOk
| ReplyThrown.

(** [data.response || 'Je n'ai pas de reponse pour le moment.']. *)
Definition response_or_default (response : option Json) : Json :=
  match response with
  | Some v => if truthy v then v else JString no_answer
  | None => JString no_answer
  end.

(** The message that [handleSubmit] appends once the request has settled. *)
Definition agiResponse (r : StimulateReply) : Message :=
  match r with
  | ReplyJson response cognitive_mode =>
      {| sender := agi; text := response_or_default response;
         cognitiveMode := cognitive_mode |}
  | ReplyNotOk =>
      {| sender := agi; text := JString stimulation_error; cognitiveMode := None |}
  | ReplyThrown =>
      {| sender := agi; text := JString unreachable; cognitiveMode := None |}
  end.

Definition handleSubmit_settled (r : StimulateReply) (st : State) : State :=
  {| status := status st;
     messages := messages st ++ [agiResponse r];
     input := input st |}.

(** The [disabled] attribute of the submit button and of the text field. *)
Definition button_disabled (st : State) : bool :=
  negb (is_online (status st)) || falsy (trim (input st)).

Definition field_disabled (st : State) : bool := negb (is_online (status st)).

(** The component with its requests: the state, the number of stimulation
    requests in flight, and whether the status request of the mount effect is
    still in flight. *)
Record Session : Type := {
  ui : State;
  in_flight : nat;
  status_in_flight : bool
}.

Definition mounted : Session :=
  {| ui := initial; in_flight := 0; status_in_flight := true |}.

Inductive Event : Type :=
| Typed (s : jsstring)                 (* [onChange] of the text field *)
| Submitted                            (* [onSubmit] of the form *)
| StatusSettled (r : StatusReply)
| StimulateSettled (r : StimulateReply).

Definition step (w : Session) (e : Event) : Session :=
  match e with
  | Typed s =>
      {| ui := {| status := status (ui w); messages := messages (ui w);
                  input := s |};
         in_flight := in_flight w;
         status_in_flight := status_in_flight w |}
  | Submitted =>
      match handleSubmit (ui w) with
      | (st, Some _) =>
          {| ui := st; in_flight := S (in_flight w);
             status_in_flight := status_in_flight w |}
      | (st, None) =>
          {| ui := st; in_flight := in_flight w;
             status_in_flight := status_in_flight w |}
      end
  | StatusSettled r =>
      if status_in_flight w
      then {| ui := checkStatus r (ui w); in_flight := in_flight w;
              status_in_flight := false |}
      else w
  | StimulateSettled r =>
      match in_flight w with
      | O => w
      | S n =>
          {| ui := handleSubmit_settled r (ui w); in_flight := n;
             status_in_flight := status_in_flight w |}
      end
  end.

Definition run (events : list Event) : Session := fold_left step events mounted.

(** The greeting, as a message. *)
Definition greeting_message : Message :=
  {| sender := agi; text := JString greeting; cognitiveMode := None |}.

(** What holds of a session while the status is [loading], [offline] and
    [online]. *)
Definition settled_or_pending (count : Sender -> list Message -> nat) (w : Session)
  : Prop :=
  match status (ui w) with
  | loading =>
      status_in_flight w = true /\ messages (ui w) = [] /\ in_flight w = O
  | offline =>
      status_in_flight w = false /\ count user (messages (ui w)) = O /\
      in_flight w = O
  | online =>
      status_in_flight w = false /\
      exists conversation,
        messages (ui w) = greeting_message :: conversation /\
        count user conversation = (count agi conversation + in_flight w)%nat
  end.

(** The number of messages of a sender. *)
Definition sent_by (who : Sender) (ms : list Message) : nat :=
  List.length (filter (fun m => match sender m, who with
                           | user, user | agi, agi => true
                           | _, _ => false
                           end) ms).

End AgiInterface.

(** * Properties *)

(** ** Facts about the builtins *)
Section BuiltinFacts.
Import Wgsl.

Lemma fdiv_defined (a b : R) : b <> 0 -> fdiv a b = Some (a / b).
Proof.
  intros Hb. unfold fdiv. destruct (Req_dec_T b 0) as [E | _]; [contradiction | reflexivity].
Qed.

Lemma fdiv_zero (a : R) : fdiv a 0 = None.
Proof.
  unfold fdiv. destruct (Req_dec_T 0 0) as [_ | N]; [reflexivity | now elim N].
Qed.

Lemma clamp_unit (q : R) : 0 <= clamp q 0 1 <= 1.
Proof.
  unfold clamp, Rmin, Rmax.
  destruct (Rle_dec q 0); destruct (Rle_dec _ 1); lra.
Qed.

Lemma clamp_below (q : R) : q <= 0 -> clamp q 0 1 = 0.
Proof.
  intros Hq. unfold clamp, Rmin, Rmax.
  destruct (Rle_dec q 0); destruct (Rle_dec _ 1); lra.
Qed.

Lemma clamp_above (q : R) : 1 <= q -> clamp q 0 1 = 1.
Proof.
  intros Hq. unfold clamp, Rmin, Rmax.
  destruct (Rle_dec q 0); destruct (Rle_dec _ 1); lra.
Qed.

Lemma clamp_inside (q : R) : 0 <= q <= 1 -> clamp q 0 1 = q.
Proof.
  intros Hq. unfold clamp, Rmin, Rmax.
  destruct (Rle_dec q 0); destruct (Rle_dec _ 1); lra.
Qed.

(** The Hermite polynomial of [smoothstep] maps [0,1] into [0,1]. *)
Lemma hermite_unit (t : R) : 0 <= t <= 1 -> 0 <= t * t * (3 - 2 * t) <= 1.
Proof.
  intros [H0 H1]. split.
  - apply Rmult_le_pos; [nra | lra].
  - assert (0 <= (1 - t) * (1 - t) * (1 + 2 * t)) by (apply Rmult_le_pos; nra).
    nra.
Qed.

Lemma smoothstep_defined (low high x : R) :
  low <> high ->
  smoothstep low high x =
  Some (clamp ((x - low) / (high - low)) 0 1 * clamp ((x - low) / (high - low)) 0 1
        * (3 - 2 * clamp ((x - low) / (high - low)) 0 1)).
Proof.
  intros Hne. unfold smoothstep.
  rewrite fdiv_defined by lra. reflexivity.
Qed.

Lemma smoothstep_unit (low high x s : R) :
  smoothstep low high x = Some s -> 0 <= s <= 1.
Proof.
  unfold smoothstep, fdiv.
  destruct (Req_dec_T (high - low) 0); simpl; [discriminate |].
  intros [= <-]. apply hermite_unit, clamp_unit.
Qed.

Lemma u32_small (z : Z) : (0 <= z < u32_modulus)%Z -> u32 z = z.
Proof. intros Hz. unfold u32. now apply Z.mod_small. Qed.

Lemma u32_range (z : Z) : (0 <= u32 z < u32_modulus)%Z.
Proof. unfold u32. apply Z.mod_pos_bound. reflexivity. Qed.

Lemma arrayLength_range {A : Type} (a : list A) :
  (0 <= arrayLength a < u32_modulus)%Z.
Proof. apply u32_range. Qed.

Lemma arrayLength_le {A : Type} (a : list A) :
  (arrayLength a <= Z.of_nat (length a))%Z.
Proof.
  unfold arrayLength, u32. apply Z.mod_le; [lia | reflexivity].
Qed.

(** A read below [arrayLength] is inside the array. *)
Lemma index_in_bounds {A : Type} (a : list A) (i : Z) :
  (0 <= i < arrayLength a)%Z -> exists e, index a i = Some e.
Proof.
  intros Hi. pose proof (arrayLength_le a) as Hle.
  unfold index. destruct (Z.ltb_spec i 0) as [Hneg | _]; [lia |].
  destruct (nth_error a (Z.to_nat i)) as [e |] eqn:E; [now exists e |].
  apply nth_error_None in E. lia.
Qed.

Lemma index_nil {A : Type} (i : Z) : index (@nil A) i = None.
Proof.
  unfold index. destruct (i <? 0)%Z; [reflexivity |].
  now destruct (Z.to_nat i).
Qed.

(** A loop whose first trip is indeterminate is indeterminate. *)
Lemma for_u32_first_trip {A : Type} (bound : Z) (body : Z -> A -> option A)
    (init : A) :
  (0 < bound)%Z -> body 0%Z init = None -> for_u32 bound body init = None.
Proof.
  intros Hb H0. unfold for_u32.
  destruct (Z.to_nat bound) as [| trips] eqn:E; [lia |].
  cbn [for_from]. now rewrite H0.
Qed.


End BuiltinFacts.

(** ** Waveform renderers on buffers with fewer than two samples *)
Section FewSamples.
Import Wgsl.

(** With one sample the Waveform-SDF loop makes no trip: the distance stays at
    the sentinel and the fragment is fully transparent. *)
Lemma sdf_one_sample_transparent (uniforms : WaveformSDF.Uniforms) (e : R)
    (inp : WaveformSDF.VertexOutput) :
  WaveformSDF.min_distance uniforms [e] (WaveformSDF.frag_coord_px uniforms inp)
    = Some 1e9 /\
  WaveformSDF.fs_main uniforms [e] inp = Some (Vec4 0 0 0 0).
Proof.
  assert (Hmin : forall px, WaveformSDF.min_distance uniforms [e] px = Some 1e9)
    by reflexivity.
  split; [apply Hmin |].
  unfold WaveformSDF.fs_main. rewrite Hmin. cbn [bind].
  unfold WaveformSDF.glow_radius_px, WaveformSDF.line_width_px.
  rewrite !smoothstep_defined by lra. cbn [bind].
  rewrite !clamp_below by lra.
  unfold vec4_of3, scale3, map3, WaveformSDF.line_color; cbn [x3 y3 z3].
  f_equal. f_equal; lra.
Qed.

(** A Waveform-Direct vertex at or beyond the live sample count is sent to
    [(-2, -2)], outside the clip square, and the sample array is not read. *)
Lemma direct_beyond_count (eeg_data : list R) (i : Z) :
  (arrayLength eeg_data <= i)%Z ->
  WaveformDirect.clip_position (WaveformDirect.vs_main eeg_data i)
    = WaveformDirect.OVec4 (Some (-2)) (Some (-2)) (Some 0) (Some 1).
Proof.
  intros Hi. unfold WaveformDirect.vs_main.
  destruct (Z.geb_spec i (arrayLength eeg_data)) as [_ | Hlt]; [reflexivity | lia].
Qed.

(** The model on an empty list: the bound [num_points - 1u] of the
    Waveform-SDF loop wraps around to 4294967295 and the first trip reads
    [eeg_data[0]].  A storage-buffer binding is never empty (a binding of size
    zero is refused when the bind group is created), so the shader is not run
    on this input; the lemma records why the results on the Waveform-SDF
    fragment stage ask for at least one sample. *)
Lemma sdf_empty_list_loop_bound (uniforms : WaveformSDF.Uniforms)
    (inp : WaveformSDF.VertexOutput) :
  u32_sub (arrayLength (@nil R)) 1 = 4294967295%Z /\
  WaveformSDF.segment uniforms [] 0 = None /\
  WaveformSDF.fs_main uniforms [] inp = None.
Proof.
  assert (Hbound : u32_sub (arrayLength (@nil R)) 1 = 4294967295%Z) by reflexivity.
  assert (Hseg : WaveformSDF.segment uniforms [] 0 = None).
  { unfold WaveformSDF.segment. rewrite Hbound.
    unfold f32. rewrite fdiv_defined by lra. cbn [bind].
    now rewrite index_nil. }
  split; [exact Hbound | split; [exact Hseg |]].
  unfold WaveformSDF.fs_main, WaveformSDF.min_distance.
  rewrite Hbound, for_u32_first_trip; [reflexivity | lia |].
  unfold WaveformSDF.loop_body. now rewrite Hseg.
Qed.



End FewSamples.

(** ** The vertex stage of the Waveform-Direct renderer *)
Section DirectVertex.
Import Wgsl Geometry WaveformDirect.

(** With a single sample the divisor [f32(num_points - 1u)] is zero: the [x]
    coordinate of vertex 0 is the result of [0.0 / 0.0], not the number
    [-1 + 2*i/(N-1)]. *)
Lemma direct_single_sample_x_indeterminate :
  (0 < arrayLength [0.25%R])%Z /\
  ox (clip_position (vs_main [0.25] 0)) = None /\
  ox (clip_position (vs_main [0.25] 0))
    <> Some (-1 + 2 * IZR 0 / IZR (arrayLength [0.25] - 1)).
Proof.
  assert (E : ox (clip_position (vs_main [0.25] 0)) = None).
  { unfold vs_main.
    change (arrayLength [0.25]) with 1%Z.
    change (u32_sub 1 1) with 0%Z. cbn [Z.geb Z.compare clip_position ox].
    unfold f32. now rewrite fdiv_zero. }
  split; [reflexivity | split; [exact E |]].
  rewrite E. discriminate.
Qed.

(** C4 (as amended).  A vertex at or beyond the live sample count goes to
    [(-2, -2, 0, 1)], both coordinates outside [-1, 1].  A vertex below it
    has [y = sample[i] * 0.5], and [x = -1 + 2*i/(N-1)] when there are at
    least two samples. *)
Theorem direct_vertex_position (eeg_data : list R) (i : Z) :
  (0 <= i)%Z ->
  let N := arrayLength eeg_data in
  let p := clip_position (vs_main eeg_data i) in
  ((N <= i)%Z ->
     p = OVec4 (Some (-2)) (Some (-2)) (Some 0) (Some 1) /\
     outside_clip (ox p) /\ outside_clip (oy p)) /\
  ((i < N)%Z ->
     (exists e, nth_error eeg_data (Z.to_nat i) = Some e /\ oy p = Some (e * 0.5)) /\
     oz p = Some 0 /\ ow p = Some 1 /\
     ((2 <= N)%Z -> ox p = Some (-1 + 2 * IZR i / IZR (N - 1)))).
Proof.
  intros Hi N p. split.
  - intros Hge. subst p. rewrite direct_beyond_count by exact Hge.
    cbn [ox oy]. repeat split; exists (-2); (split; [reflexivity | left; lra]).
  - intros Hlt. subst p. unfold vs_main. fold N.
    destruct (Z.geb_spec i N) as [Hge | _]; [lia |].
    cbn [clip_position ox oy oz ow].
    destruct (index_in_bounds eeg_data i) as [e He]; [fold N; lia |].
    split; [| split; [reflexivity | split; [reflexivity |]]].
    + exists e. split.
      * unfold index in He. destruct (Z.ltb_spec i 0); [lia | exact He].
      * now rewrite He.
    + intros HN.
      assert (Hsub : u32_sub N 1 = (N - 1)%Z).
      { unfold u32_sub. apply u32_small.
        pose proof (arrayLength_range eeg_data). fold N in H. lia. }
      rewrite Hsub. unfold f32.
      assert (Hpos : 0 < IZR (N - 1)) by (apply IZR_lt; lia).
      rewrite fdiv_defined by lra. cbn [bind].
      f_equal. field. lra.
Qed.

Lemma direct_vertex_position_witness :
  ox (clip_position (vs_main [0.2; 0.4; 0.6] 1))
    = Some (-1 + 2 * IZR 1 / IZR (arrayLength [0.2; 0.4; 0.6] - 1)) /\
  clip_position (vs_main [0.2; 0.4; 0.6] 3)
    = OVec4 (Some (-2)) (Some (-2)) (Some 0) (Some 1).
Proof.
  split.
  - destruct (direct_vertex_position [0.2; 0.4; 0.6] 1 ltac:(lia)) as [_ Hin].
    destruct (Hin ltac:(vm_compute; reflexivity)) as (_ & _ & _ & Hx).
    apply Hx. vm_compute. discriminate.
  - destruct (direct_vertex_position [0.2; 0.4; 0.6] 3 ltac:(lia)) as [Hout _].
    apply Hout. vm_compute. discriminate.
Defined.

End DirectVertex.

(** ** The full-screen vertex stages *)
Section FullScreen.
Import Wgsl Geometry.

(** The three corners emitted by the explicit oversized triangle. *)
Lemma sdf_vs_main_corners :
  WaveformSDF.vs_main 0 =
    Some {| WaveformSDF.clip_position := Vec4 (-1) (-1) 0 1;
            WaveformSDF.frag_coord := Vec2 (-1) (-1) |} /\
  WaveformSDF.vs_main 1 =
    Some {| WaveformSDF.clip_position := Vec4 3 (-1) 0 1;
            WaveformSDF.frag_coord := Vec2 3 (-1) |} /\
  WaveformSDF.vs_main 2 =
    Some {| WaveformSDF.clip_position := Vec4 (-1) 3 0 1;
            WaveformSDF.frag_coord := Vec2 (-1) 3 |}.
Proof. repeat split. Qed.

(** The three corners emitted by the bit-parity construction. *)
Lemma parity_vs_main_corners :
  ColumnGlow.vs_main 0 = Vec4 (-1) (-1) 0 1 /\
  ColumnGlow.vs_main 1 = Vec4 (-1) 3 0 1 /\
  ColumnGlow.vs_main 2 = Vec4 3 (-1) 0 1.
Proof.
  unfold ColumnGlow.vs_main, u32_div, u32_rem, f32.
  change (0 / 2)%Z with 0%Z. change (1 / 2)%Z with 0%Z. change (2 / 2)%Z with 1%Z.
  change (0 mod 2)%Z with 0%Z. change (1 mod 2)%Z with 1%Z.
  change (2 mod 2)%Z with 0%Z.
  repeat split; f_equal; lra.
Qed.

Lemma noise_vs_main_corners :
  OrganicNoise.vs_main 0 = Vec4 (-1) (-1) 0 1 /\
  OrganicNoise.vs_main 1 = Vec4 (-1) 3 0 1 /\
  OrganicNoise.vs_main 2 = Vec4 3 (-1) 0 1.
Proof. exact parity_vs_main_corners. Qed.

(** The triangle with a right angle at [(-1,-1)] and legs of length 4 covers
    the clip square, whichever way round its two other corners are listed. *)
Lemma big_triangle_covers (p : vec2) :
  in_clip_square p ->
  in_triangle (Vec2 (-1) (-1)) (Vec2 3 (-1)) (Vec2 (-1) 3) p /\
  in_triangle (Vec2 (-1) (-1)) (Vec2 (-1) 3) (Vec2 3 (-1)) p.
Proof.
  intros [[Hx0 Hx1] [Hy0 Hy1]]. split.
  - exists (1 - (x2 p + 1) / 4 - (y2 p + 1) / 4), ((x2 p + 1) / 4), ((y2 p + 1) / 4).
    cbn [x2 y2]. repeat split; lra.
  - exists (1 - (x2 p + 1) / 4 - (y2 p + 1) / 4), ((y2 p + 1) / 4), ((x2 p + 1) / 4).
    cbn [x2 y2]. repeat split; lra.
Qed.

(** C8.  For a vertex index in {0, 1, 2} every full-screen vertex stage emits
    a position with [z = 0] and [w = 1] computed from the index alone, and
    the triangle of the three emitted positions contains every point of the
    clip square. *)
Theorem full_screen_triangle_covers (i : Z) (p : vec2) :
  (0 <= i <= 2)%Z ->
  in_clip_square p ->
  (exists out, WaveformSDF.vs_main i = Some out /\
     z4 (WaveformSDF.clip_position out) = 0 /\
     w4 (WaveformSDF.clip_position out) = 1) /\
  (z4 (ColumnGlow.vs_main i) = 0 /\ w4 (ColumnGlow.vs_main i) = 1) /\
  (z4 (OrganicNoise.vs_main i) = 0 /\ w4 (OrganicNoise.vs_main i) = 1) /\
  (exists o0 o1 o2,
     WaveformSDF.vs_main 0 = Some o0 /\
     WaveformSDF.vs_main 1 = Some o1 /\
     WaveformSDF.vs_main 2 = Some o2 /\
     in_triangle (xy (WaveformSDF.clip_position o0))
                 (xy (WaveformSDF.clip_position o1))
                 (xy (WaveformSDF.clip_position o2)) p) /\
  in_triangle (xy (ColumnGlow.vs_main 0)) (xy (ColumnGlow.vs_main 1))
              (xy (ColumnGlow.vs_main 2)) p /\
  in_triangle (xy (OrganicNoise.vs_main 0)) (xy (OrganicNoise.vs_main 1))
              (xy (OrganicNoise.vs_main 2)) p.
Proof.
  intros Hi Hp.
  destruct (big_triangle_covers p Hp) as [Hexplicit Hparity].
  destruct sdf_vs_main_corners as (S0 & S1 & S2).
  destruct parity_vs_main_corners as (P0 & P1 & P2).
  split.
  { assert (Hcases : i = 0%Z \/ i = 1%Z \/ i = 2%Z) by lia.
    destruct Hcases as [-> | [-> | ->]];
      [rewrite S0 | rewrite S1 | rewrite S2]; eexists; repeat split. }
  split; [split; reflexivity |].
  split; [split; reflexivity |].
  split.
  { do 3 eexists.
    split; [exact S0 | split; [exact S1 | split; [exact S2 | exact Hexplicit]]]. }
  destruct noise_vs_main_corners as (N0 & N1 & N2).
  rewrite P0, P1, P2, N0, N1, N2. cbn [xy x4 y4].
  split; exact Hparity.
Qed.

Lemma full_screen_triangle_covers_witness :
  in_triangle (xy (ColumnGlow.vs_main 0)) (xy (ColumnGlow.vs_main 1))
              (xy (ColumnGlow.vs_main 2)) (Vec2 1 1).
Proof.
  assert (Hsq : in_clip_square (Vec2 1 1)) by (unfold in_clip_square; cbn; lra).
  exact (proj1 (proj2 (proj2 (proj2 (proj2
    (full_screen_triangle_covers 1 (Vec2 1 1) ltac:(lia) Hsq)))))).
Defined.

End FullScreen.

(** ** The Organic-Noise renderer *)
Section Noise.
Import Wgsl OrganicNoise.

Lemma mix_at_0 (e1 e2 : R) : mix e1 e2 0 = e1.
Proof. unfold mix. lra. Qed.

Lemma mix_at_1 (e1 e2 : R) : mix e1 e2 1 = e2.
Proof. unfold mix. lra. Qed.

Lemma mix3_at_0 (a b : vec3) : mix3 a b 0 = a.
Proof. destruct a, b. unfold mix3, zip3. cbn [x3 y3 z3]. now rewrite !mix_at_0. Qed.

Lemma mix3_at_1 (a b : vec3) : mix3 a b 1 = b.
Proof. destruct a, b. unfold mix3, zip3. cbn [x3 y3 z3]. now rewrite !mix_at_1. Qed.

(** At full awareness the fragment is the bright hue, whatever the noise. *)
Lemma noise_full_awareness (uniforms : Uniforms) (frag_coord : vec4) :
  resolution_x uniforms <> 0 -> resolution_y uniforms <> 0 ->
  awareness_level uniforms = 1 ->
  fs_main uniforms frag_coord = Some (vec4_of3 bright_color 1).
Proof.
  intros Hx Hy Ha. unfold fs_main, fdiv2. cbn [x2 y2].
  rewrite !fdiv_defined by assumption. cbn [bind].
  rewrite smoothstep_defined by lra. cbn [bind].
  rewrite Ha. unfold bright_weight.
  replace (1 * 1) with 1 by lra. rewrite mix3_at_1.
  replace 1.0 with 1 by lra. reflexivity.
Qed.

(** C6.  The parameters are linear interpolations in the awareness level;
    at awareness 0 they are speed 2.0, zoom 5.0, distortion 0.8 and
    bright-blend weight 0; at awareness 1 they are speed 0.1, zoom 2.0,
    distortion 0.0 and bright-blend weight 1.  The blend weight is the square
    of the awareness, and the frame [time = 0, resolution = (800, 600),
    awareness = 1] renders the bright hue. *)
Theorem noise_parameter_endpoints :
  (time_speed 0 = 2.0 /\ zoom 0 = 5.0 /\ distortion_amount 0 = 0.8 /\
   bright_weight 0 = 0) /\
  (time_speed 1 = 0.1 /\ zoom 1 = 2.0 /\ distortion_amount 1 = 0.0 /\
   bright_weight 1 = 1) /\
  (forall a, time_speed a = 2.0 + (0.1 - 2.0) * a /\
             zoom a = 5.0 + (2.0 - 5.0) * a /\
             distortion_amount a = 0.8 + (0.0 - 0.8) * a /\
             bright_weight a = a * a) /\
  (forall frag_coord,
     fs_main {| time := 0; resolution_x := 800; resolution_y := 600;
                awareness_level := 1.0 |} frag_coord
     = Some (Vec4 0.8 0.9 1.0 1)).
Proof.
  unfold time_speed, zoom, distortion_amount, bright_weight, mix.
  repeat split; try lra.
  intros frag_coord. rewrite noise_full_awareness; cbn; try lra.
  reflexivity.
Qed.

End Noise.

(** ** Loops *)
Section LoopFacts.
Import Wgsl.
Context {A : Type}.

(** An invariant indexed by the loop variable is carried through the loop,
    and no trip is indeterminate. *)
Lemma for_from_invariant (P : Z -> A -> Prop) (body : Z -> A -> option A) :
  forall (trips : nat) (i : Z) (acc : A),
    (0 <= i)%Z -> (i + Z.of_nat trips < u32_modulus)%Z ->
    P i acc ->
    (forall j a, (i <= j < i + Z.of_nat trips)%Z -> P j a ->
                 exists a', body j a = Some a' /\ P (j + 1)%Z a') ->
    exists r, for_from trips i body acc = Some r /\ P (i + Z.of_nat trips)%Z r.
Proof.
  induction trips as [| trips IH]; intros i acc Hi Hbound Hacc Hstep.
  - exists acc. split; [reflexivity |].
    now replace (i + Z.of_nat 0)%Z with i by lia.
  - destruct (Hstep i acc ltac:(lia) Hacc) as (a' & Ha' & HP').
    cbn [for_from]. rewrite Ha'. cbn [bind].
    assert (Hnext : u32_add i 1 = (i + 1)%Z) by (apply u32_small; lia).
    rewrite Hnext.
    destruct (IH (i + 1)%Z a') as (r & Hr & HPr); [lia | lia | exact HP' | |].
    + intros j a Hj. apply Hstep. lia.
    + exists r. split; [exact Hr |].
      now replace (i + Z.of_nat (S trips))%Z with (i + 1 + Z.of_nat trips)%Z by lia.
Qed.

Lemma for_u32_invariant (P : Z -> A -> Prop) (body : Z -> A -> option A)
    (bound : Z) (init : A) :
  (0 <= bound < u32_modulus)%Z ->
  P 0%Z init ->
  (forall j a, (0 <= j < bound)%Z -> P j a ->
               exists a', body j a = Some a' /\ P (j + 1)%Z a') ->
  exists r, for_u32 bound body init = Some r /\ P bound r.
Proof.
  intros Hb H0 Hstep. unfold for_u32.
  destruct (for_from_invariant P body (Z.to_nat bound) 0 init) as (r & Hr & HP);
    [lia | lia | exact H0 | |].
  - intros j a Hj. apply Hstep. lia.
  - exists r. split; [exact Hr |].
    now replace bound with (0 + Z.of_nat (Z.to_nat bound))%Z by lia.
Qed.

(** A loop that reads [a[i]] on trip [i] and feeds it to a total step is a
    left fold over the array. *)
Lemma for_from_fold_left {B : Type} (g : A -> B -> A) (body : Z -> A -> option A) :
  forall (l : list B) (i : Z) (acc : A),
    (0 <= i)%Z -> (i + Z.of_nat (length l) < u32_modulus)%Z ->
    (forall j a b, (i <= j)%Z -> nth_error l (Z.to_nat (j - i)) = Some b ->
                   body j a = Some (g a b)) ->
    for_from (length l) i body acc = Some (fold_left g l acc).
Proof.
  induction l as [| b l IH]; intros i acc Hi Hbound Hbody; [reflexivity |].
  cbn [length for_from fold_left].
  rewrite (Hbody i acc b) by (try lia; now replace (i - i)%Z with 0%Z by lia).
  cbn [bind].
  assert (Hnext : u32_add i 1 = (i + 1)%Z).
  { apply u32_small. cbn [length] in Hbound. lia. }
  rewrite Hnext. apply IH; [lia | cbn [length] in Hbound; lia |].
  intros j a b' Hj Hnth. apply Hbody; [lia |].
  replace (Z.to_nat (j - i)) with (S (Z.to_nat (j - (i + 1)))) by lia.
  exact Hnth.
Qed.

End LoopFacts.

(** ** The Column-Glow renderer *)
Section Glow.
Import Wgsl Geometry ColumnGlow GlowSpec.

Lemma smoothstep_some (low high x : R) :
  low <> high -> smoothstep low high x = Some (smoothstep_val low high x).
Proof.
  intros Hne. unfold smoothstep, smoothstep_val.
  rewrite fdiv_defined by lra. reflexivity.
Qed.

Lemma smoothstep_val_unit (low high x : R) : 0 <= smoothstep_val low high x <= 1.
Proof. unfold smoothstep_val. apply hermite_unit, clamp_unit. Qed.

Lemma coverage_unit (uv : vec2) (col : Column) : 0 <= coverage uv col <= 1.
Proof. apply smoothstep_val_unit. Qed.

Lemma intensity_unit (col : Column) : 0 <= intensity col <= 1.
Proof. apply smoothstep_val_unit. Qed.

Lemma centered_uv_defined (uniforms : Uniforms) (frag_coord : vec4) :
  resolution_y uniforms <> 0 ->
  centered_uv uniforms frag_coord =
  Some (Vec2 ((x4 frag_coord - 0.5 * resolution_x uniforms) / resolution_y uniforms)
             ((y4 frag_coord - 0.5 * resolution_y uniforms) / resolution_y uniforms)).
Proof.
  intros Hy. unfold centered_uv, fdivs2. cbn [x2 y2 xy smul2 sub2 zip2 map2].
  rewrite !fdiv_defined by exact Hy. reflexivity.
Qed.

(** One trip of the loop, for a column that is read inside the array. *)
Lemma glow_loop_body (columns : list Column) (uv : vec2) (i : Z)
    (final_color : vec3) (col : Column) :
  index columns i = Some col ->
  loop_body columns (Some uv) i final_color =
  Some (if kept_by_intensity col
        then add3 final_color (contribution uv col)
        else final_color).
Proof.
  intros Hcol. unfold loop_body. rewrite Hcol. cbn [bind].
  rewrite smoothstep_some by lra. cbn [bind].
  fold (intensity col). unfold kept_by_intensity.
  destruct (gt (intensity col) 0.01); [| reflexivity].
  unfold circle. rewrite smoothstep_some by lra. cbn [bind].
  reflexivity.
Qed.

(** A trip for a column that fails the test leaves the colour as it is and
    does not read [uv]; a trip for a kept column needs [uv]. *)
Lemma glow_loop_body_any_uv (columns : list Column) (uv : option vec2) (i : Z)
    (final_color : vec3) (col : Column) :
  index columns i = Some col ->
  loop_body columns uv i final_color =
  if kept_by_intensity col
  then match uv with
       | Some p => Some (add3 final_color (contribution p col))
       | None => None
       end
  else Some final_color.
Proof.
  intros Hcol. destruct uv as [p |].
  - rewrite (glow_loop_body _ _ _ _ col Hcol).
    now destruct (kept_by_intensity col).
  - unfold loop_body. rewrite Hcol. cbn [bind].
    rewrite smoothstep_some by lra. cbn [bind].
    fold (intensity col). unfold kept_by_intensity.
    now destruct (gt (intensity col) 0.01).
Qed.

(** A kept column never darkens the colour. *)
Lemma contribution_nonneg (uv : vec2) (col : Column) :
  le3 (Vec3 0 0 0) (contribution uv col).
Proof.
  pose proof (coverage_unit uv col) as Hc.
  pose proof (intensity_unit col) as Hi.
  assert (0 <= coverage uv col * intensity col) by (apply Rmult_le_pos; lra).
  unfold le3, contribution, scale3, smul3, map3, base_color. cbn [x3 y3 z3].
  repeat split; nra.
Qed.

Lemma glow_step_monotone (uv : vec2) (col : Column) (c : vec3) (keep : bool) :
  le3 background c ->
  le3 background (if keep then add3 c (contribution uv col) else c).
Proof.
  intros Hc. destruct keep; [| exact Hc].
  destruct (contribution_nonneg uv col) as (Hx & Hy & Hz).
  destruct Hc as (Cx & Cy & Cz).
  unfold le3, add3, zip3 in *. cbn [x3 y3 z3] in *. repeat split; lra.
Qed.

(** Every prefix of the loop yields a colour at least the background. *)
Lemma composite_above_background (columns : list Column) (uv : vec2) (n : Z) :
  (0 <= n <= arrayLength columns)%Z ->
  exists c, composite n columns (Some uv) = Some c /\ le3 background c.
Proof.
  intros Hn. pose proof (arrayLength_range columns) as Hrange.
  unfold composite.
  apply (for_u32_invariant (fun _ c => le3 background c)).
  - lia.
  - unfold le3. repeat split; lra.
  - intros j c Hj Hc.
    destruct (index_in_bounds columns j) as [col Hcol]; [lia |].
    rewrite (glow_loop_body _ _ _ _ col Hcol).
    eexists. split; [reflexivity |]. now apply glow_step_monotone.
Qed.

(** The whole loop as a left fold over the columns. *)
Lemma composite_accumulate (columns : list Column) (uv : vec2) :
  (Z.of_nat (length columns) < u32_modulus)%Z ->
  composite (arrayLength columns) columns (Some uv)
  = Some (accumulate kept_by_intensity uv columns).
Proof.
  intros Hlen. unfold composite, for_u32, arrayLength.
  rewrite u32_small by lia. rewrite Nat2Z.id.
  apply for_from_fold_left; [lia | lia |].
  intros j c col Hj Hnth. apply glow_loop_body.
  unfold index. destruct (Z.ltb_spec j 0); [lia |].
  now replace (j - 0)%Z with j in Hnth by lia.
Qed.

Lemma glow_fs_main_accumulate (uniforms : Uniforms) (columns : list Column)
    (frag_coord : vec4) (uv : vec2) :
  centered_uv uniforms frag_coord = Some uv ->
  (Z.of_nat (length columns) < u32_modulus)%Z ->
  fs_main uniforms columns frag_coord
  = Some (vec4_of3 (accumulate kept_by_intensity uv columns) 1).
Proof.
  intros Huv Hlen. unfold fs_main. cbv zeta. rewrite Huv.
  now rewrite composite_accumulate.
Qed.

(** *** The two example frames *)

Lemma example_uv (slot : Z) :
  centered_uv (GlowExample.unit_target slot) GlowExample.centre_frag
  = Some (Vec2 0 0).
Proof.
  rewrite centered_uv_defined by (cbn; lra).
  cbn. f_equal. f_equal; lra.
Qed.

Lemma fully_active_intensity (p : vec2) : intensity {| pos := p; state := 1 |} = 1.
Proof.
  unfold intensity, smoothstep_val. cbn [state].
  rewrite clamp_above by lra. lra.
Qed.

Lemma fully_active_kept (p : vec2) :
  kept_by_intensity {| pos := p; state := 1 |} = true.
Proof.
  unfold kept_by_intensity, gt. rewrite fully_active_intensity.
  destruct (Rlt_dec 0.01 1); [reflexivity | lra].
Qed.

Lemma edge_column_coverage :
  coverage (Vec2 0 0) GlowExample.edge_column = 0.00725.
Proof.
  unfold coverage, smoothstep_val, distance2, length2, dot2, sub2, zip2.
  cbn [x2 y2 pos GlowExample.edge_column].
  replace ((0 - 0.02865) * (0 - 0.02865) + (0 - 0) * (0 - 0))
    with (0.02865 * 0.02865) by lra.
  rewrite sqrt_square by lra.
  rewrite clamp_inside by lra. lra.
Qed.

Lemma centre_column_coverage :
  coverage (Vec2 0 0) GlowExample.centre_column = 1.
Proof.
  unfold coverage, smoothstep_val, distance2, length2, dot2, sub2, zip2.
  cbn [x2 y2 pos GlowExample.centre_column].
  replace ((0 - 0) * (0 - 0) + (0 - 0) * (0 - 0)) with 0 by lra.
  rewrite sqrt_0.
  rewrite clamp_above by lra. lra.
Qed.

Lemma edge_column_step :
  loop_body [GlowExample.edge_column] (Some (Vec2 0 0)) 0 background
  = Some (add3 background (contribution (Vec2 0 0) GlowExample.edge_column)).
Proof.
  rewrite (glow_loop_body _ _ _ _ GlowExample.edge_column) by reflexivity.
  unfold GlowExample.edge_column. now rewrite fully_active_kept.
Qed.

Lemma edge_column_contribution :
  x3 (add3 background (contribution (Vec2 0 0) GlowExample.edge_column)) = 0.0010875.
Proof.
  unfold contribution. rewrite edge_column_coverage.
  unfold GlowExample.edge_column. rewrite fully_active_intensity.
  unfold add3, zip3, scale3, smul3, map3, background, base_color. cbn [x3]. lra.
Qed.

(** The skip rule [coverage * intensity < 0.01] is not the shader's: the
    column of the first example frame has [coverage * intensity = 0.00725],
    yet its trip adds to the colour, and the fragment differs from the one
    obtained by skipping on the product. *)
Lemma glow_skip_rule_counterexample :
  centered_uv (GlowExample.unit_target 1) GlowExample.centre_frag
    = Some (Vec2 0 0) /\
  coverage (Vec2 0 0) GlowExample.edge_column * intensity GlowExample.edge_column
    < 0.01 /\
  loop_body [GlowExample.edge_column] (Some (Vec2 0 0)) 0 background
    <> Some background /\
  fs_main (GlowExample.unit_target 1) [GlowExample.edge_column] GlowExample.centre_frag
    <> Some (vec4_of3
               (accumulate (kept_by_product (Vec2 0 0)) (Vec2 0 0)
                           [GlowExample.edge_column]) 1).
Proof.
  assert (Hprod : coverage (Vec2 0 0) GlowExample.edge_column
                  * intensity GlowExample.edge_column = 0.00725).
  { rewrite edge_column_coverage. unfold GlowExample.edge_column.
    rewrite fully_active_intensity. lra. }
  split; [apply example_uv |].
  split; [rewrite Hprod; lra |].
  split.
  - rewrite edge_column_step. intros [= Hx _ _].
    pose proof edge_column_contribution as E. unfold background in *.
    cbn [x3 add3 zip3] in *. lra.
  - rewrite (glow_fs_main_accumulate _ _ _ (Vec2 0 0));
      [| apply example_uv | cbn; unfold u32_modulus; lia].
    unfold accumulate. cbn [fold_left].
    unfold kept_by_product. rewrite Hprod.
    unfold GlowExample.edge_column at 1. rewrite fully_active_kept.
    unfold gt at 1. destruct (Rlt_dec 0.00725 0.01) as [_ | N]; [| lra].
    cbn [negb]. intros [= Hx _ _].
    pose proof edge_column_contribution as E. unfold background in *.
    cbn [x3 add3 zip3] in *. lra.
Qed.

(** C2 (as amended).  Each column read by the loop has
    [coverage = smoothstep(0.03, 0.03 - 0.03*0.9, distance(uv, position))] and
    [intensity = smoothstep(0, 0.8, activation)]; it is skipped exactly when
    [intensity <= 0.01], and otherwise adds
    [coverage * intensity * base_hue * 1.5] to the running colour; the
    fragment is the background plus the contributions of all kept columns. *)
Theorem glow_fragment_accumulates (uniforms : Uniforms) (columns : list Column)
    (frag_coord : vec4) :
  resolution_y uniforms <> 0 ->
  (Z.of_nat (length columns) < u32_modulus)%Z ->
  exists uv,
    centered_uv uniforms frag_coord = Some uv /\
    (forall i col final_color,
       index columns i = Some col ->
       circle uv (pos col) 0.03 (0.03 * 0.9) = Some (coverage uv col) /\
       smoothstep 0 0.8 (state col) = Some (intensity col) /\
       (kept_by_intensity col = false <-> intensity col <= 0.01) /\
       loop_body columns (Some uv) i final_color =
         Some (if kept_by_intensity col
               then add3 final_color (contribution uv col)
               else final_color)) /\
    fs_main uniforms columns frag_coord
      = Some (vec4_of3 (accumulate kept_by_intensity uv columns) 1).
Proof.
  intros Hy Hlen. eexists. split; [now apply centered_uv_defined |].
  split.
  - intros i col c Hcol.
    split; [unfold circle; now rewrite smoothstep_some by lra |].
    split; [now rewrite smoothstep_some by lra |].
    split; [| now apply glow_loop_body].
    unfold kept_by_intensity, gt.
    destruct (Rlt_dec 0.01 (intensity col)); split; intros; (discriminate || lra || reflexivity).
  - apply glow_fs_main_accumulate; [now apply centered_uv_defined | exact Hlen].
Qed.

Lemma glow_fragment_accumulates_witness :
  exists uv,
    centered_uv (GlowExample.unit_target 1) GlowExample.centre_frag = Some uv /\
    fs_main (GlowExample.unit_target 1) [GlowExample.edge_column]
            GlowExample.centre_frag
      = Some (vec4_of3 (accumulate kept_by_intensity uv [GlowExample.edge_column]) 1).
Proof.
  destruct (glow_fragment_accumulates (GlowExample.unit_target 1)
              [GlowExample.edge_column] GlowExample.centre_frag)
    as (uv & Huv & _ & Hfs).
  - cbn. lra.
  - cbn. unfold u32_modulus. lia.
  - exists uv. split; [exact Huv | exact Hfs].
Defined.

(** The unit count is not taken from the uniform slot: with 0 in the slot and
    one column in the buffer the shader composites that column. *)
Lemma glow_slot_counterexample :
  num_columns (GlowExample.unit_target 0) = 0%Z /\
  fs_main_by_slot (GlowExample.unit_target 0) [GlowExample.centre_column]
                  GlowExample.centre_frag
    = Some (vec4_of3 background 1) /\
  fs_main (GlowExample.unit_target 0) [GlowExample.centre_column]
          GlowExample.centre_frag
    = Some (Vec4 0.15 1.05 1.37 1) /\
  fs_main (GlowExample.unit_target 0) [GlowExample.centre_column]
          GlowExample.centre_frag
    <> fs_main_by_slot (GlowExample.unit_target 0) [GlowExample.centre_column]
                       GlowExample.centre_frag.
Proof.
  assert (Hslot : fs_main_by_slot (GlowExample.unit_target 0)
                    [GlowExample.centre_column] GlowExample.centre_frag
                  = Some (vec4_of3 background 1)).
  { reflexivity. }
  assert (Hcode : fs_main (GlowExample.unit_target 0)
                    [GlowExample.centre_column] GlowExample.centre_frag
                  = Some (Vec4 0.15 1.05 1.37 1)).
  { rewrite (glow_fs_main_accumulate _ _ _ (Vec2 0 0));
      [| apply example_uv | cbn; unfold u32_modulus; lia].
    unfold accumulate. cbn [fold_left].
    unfold GlowExample.centre_column at 1. rewrite fully_active_kept.
    unfold contribution. rewrite centre_column_coverage.
    unfold GlowExample.centre_column. rewrite fully_active_intensity.
    unfold vec4_of3, add3, zip3, scale3, smul3, map3, background, base_color.
    cbn [x3 y3 z3]. f_equal. f_equal; lra. }
  split; [reflexivity | split; [exact Hslot | split; [exact Hcode |]]].
  rewrite Hslot, Hcode. unfold vec4_of3, background. cbn [x3 y3 z3].
  intros [= Hx _ _]. lra.
Qed.

(** C3 (as amended).  The fragment stage never reads the uniform slot: its
    output is the same for every value of the slot, and the number of loop
    trips is [arrayLength(&columns)] (the loop is run on the coordinate [uv]
    computed before it). *)
Theorem glow_ignores_slot (uniforms : Uniforms) (columns : list Column)
    (frag_coord : vec4) (n : Z) :
  fs_main (with_slot uniforms n) columns frag_coord
    = fs_main uniforms columns frag_coord /\
  fs_main uniforms columns frag_coord
    = (final_color <- for_u32 (arrayLength columns)
                        (loop_body columns (centered_uv uniforms frag_coord))
                        background ;;
       Some (vec4_of3 final_color 1)).
Proof. split; reflexivity. Qed.

(** C9.  Whatever the column positions, activations and count, the fragment
    has alpha 1 and every colour component at least that of the background
    (0, 0, 0.02); the same bound holds after every trip of the loop. *)
Theorem glow_output_above_background (uniforms : Uniforms) (columns : list Column)
    (frag_coord : vec4) :
  resolution_y uniforms <> 0 ->
  exists uv c,
    centered_uv uniforms frag_coord = Some uv /\
    fs_main uniforms columns frag_coord = Some (Vec4 (x3 c) (y3 c) (z3 c) 1) /\
    0 <= x3 c /\ 0 <= y3 c /\ 0.02 <= z3 c /\
    (forall n, (0 <= n <= arrayLength columns)%Z ->
               exists c', composite n columns (Some uv) = Some c' /\
                          le3 background c').
Proof.
  intros Hy.
  pose proof (centered_uv_defined uniforms frag_coord Hy) as Huv.
  pose proof (arrayLength_range columns) as Hrange.
  destruct (composite_above_background columns
              (Vec2 ((x4 frag_coord - 0.5 * resolution_x uniforms) / resolution_y uniforms)
                    ((y4 frag_coord - 0.5 * resolution_y uniforms) / resolution_y uniforms))
              (arrayLength columns)) as (c & Hc & Hle); [lia |].
  eexists. exists c. split; [exact Huv |].
  split.
  - unfold fs_main. cbv zeta. rewrite Huv, Hc. reflexivity.
  - destruct Hle as (Hx & Hy' & Hz). unfold background in *. cbn [x3 y3 z3] in *.
    repeat split; try assumption.
    intros n Hn. now apply composite_above_background.
Qed.

Lemma glow_output_above_background_witness :
  exists uv c,
    centered_uv (GlowExample.unit_target 1) GlowExample.centre_frag = Some uv /\
    fs_main (GlowExample.unit_target 1) [GlowExample.centre_column]
            GlowExample.centre_frag = Some (Vec4 (x3 c) (y3 c) (z3 c) 1) /\
    0 <= x3 c /\ 0 <= y3 c /\ 0.02 <= z3 c.
Proof.
  destruct (glow_output_above_background (GlowExample.unit_target 1)
              [GlowExample.centre_column] GlowExample.centre_frag)
    as (uv & c & Huv & Hfs & Hx & Hy & Hz & _).
  - cbn. lra.
  - exists uv, c. repeat split; assumption.
Defined.

End Glow.

(** ** The Waveform-SDF renderer with at least two samples *)
Section SdfSegments.
Import Wgsl Geometry WaveformSDF.

Lemma dot2_self_nonneg (v : vec2) : 0 <= dot2 v v.
Proof. unfold dot2. nra. Qed.



(** The loop bound [num_points - 1u] when the buffer is not empty. *)
Lemma sdf_loop_bound (eeg_data : list R) :
  (1 <= arrayLength eeg_data)%Z ->
  u32_sub (arrayLength eeg_data) 1 = (arrayLength eeg_data - 1)%Z.
Proof.
  intros HN. pose proof (arrayLength_range eeg_data).
  unfold u32_sub. apply u32_small. lia.
Qed.

(** The end points of segment [i] in closed form. *)
Lemma sdf_segment_defined (uniforms : Uniforms) (eeg_data : list R) (i : Z) :
  (2 <= arrayLength eeg_data)%Z ->
  (0 <= i < arrayLength eeg_data - 1)%Z ->
  exists e1 e2,
    index eeg_data i = Some e1 /\
    index eeg_data (i + 1) = Some e2 /\
    segment uniforms eeg_data i =
    Some (Vec2 (IZR i / IZR (arrayLength eeg_data - 1) * resolution_x uniforms)
               ((e1 + 1) / 2 * resolution_y uniforms),
          Vec2 (IZR (i + 1) / IZR (arrayLength eeg_data - 1) * resolution_x uniforms)
               ((e2 + 1) / 2 * resolution_y uniforms)).
Proof.
  intros HN Hi. pose proof (arrayLength_range eeg_data) as Hrange.
  destruct (index_in_bounds eeg_data i) as [e1 He1]; [lia |].
  destruct (index_in_bounds eeg_data (i + 1)) as [e2 He2]; [lia |].
  exists e1, e2. split; [exact He1 | split; [exact He2 |]].
  unfold segment. rewrite sdf_loop_bound by lia.
  assert (Hnext : u32_add i 1 = (i + 1)%Z) by (apply u32_small; lia).
  rewrite Hnext, He1, He2. unfold f32.
  assert (Hden : IZR (arrayLength eeg_data - 1) <> 0).
  { apply not_0_IZR. lia. }
  rewrite !fdiv_defined by exact Hden. reflexivity.
Qed.














End SdfSegments.

(** ** Test vectors *)
Section TestVectors.
Import Wgsl.

(** Segment (0,0)-(10,0), query point (5,5): [h = 0.5], distance 5. *)
Example dist_to_segment_above_middle :
  WaveformSDF.dist_to_segment (Vec2 5 5) (Vec2 0 0) (Vec2 10 0) = Some 5.
Proof.
  unfold WaveformSDF.dist_to_segment, dot2, sub2, scale2, zip2, map2, length2.
  cbn [x2 y2]. rewrite fdiv_defined by lra. cbn [bind].
  replace (((5 - 0) * (10 - 0) + (5 - 0) * (0 - 0))
           / ((10 - 0) * (10 - 0) + (0 - 0) * (0 - 0))) with 0.5 by lra.
  rewrite clamp_inside by lra. unfold dot2. cbn [x2 y2].
  replace ((5 - 0 - (10 - 0) * 0.5) * (5 - 0 - (10 - 0) * 0.5)
           + (5 - 0 - (0 - 0) * 0.5) * (5 - 0 - (0 - 0) * 0.5))
    with (5 * 5) by lra.
  now rewrite sqrt_square by lra.
Qed.

(** Same segment, query point (-5,0): [h] clamps to 0, distance 5. *)
Example dist_to_segment_before_start :
  WaveformSDF.dist_to_segment (Vec2 (-5) 0) (Vec2 0 0) (Vec2 10 0) = Some 5.
Proof.
  unfold WaveformSDF.dist_to_segment, dot2, sub2, scale2, zip2, map2, length2.
  cbn [x2 y2]. rewrite fdiv_defined by lra. cbn [bind].
  rewrite clamp_below by lra. unfold dot2. cbn [x2 y2].
  replace ((-5 - 0 - (10 - 0) * 0) * (-5 - 0 - (10 - 0) * 0)
           + (0 - 0 - (0 - 0) * 0) * (0 - 0 - (0 - 0) * 0))
    with (5 * 5) by lra.
  now rewrite sqrt_square by lra.
Qed.


(** Column-Glow: activation 0 gives intensity 0. *)
Example inactive_intensity (p : vec2) :
  GlowSpec.intensity {| ColumnGlow.pos := p; ColumnGlow.state := 0 |} = 0.
Proof.
  unfold GlowSpec.intensity, GlowSpec.smoothstep_val. cbn [ColumnGlow.state].
  rewrite clamp_below by lra. lra.
Qed.

End TestVectors.

(** * Further properties of the shaders *)

(** ** [dist_to_segment] *)
Section DistToSegment.
Import Wgsl Geometry WaveformSDF.

Lemma dot2_self_zero (v : vec2) : dot2 v v = 0 -> x2 v = 0 /\ y2 v = 0.
Proof. unfold dot2. intros H. split; nra. Qed.

(** The call is indeterminate exactly for a degenerate segment: the divisor
    [dot(ba, ba)] vanishes when the two end points coincide, and only then. *)
Theorem dist_to_segment_indeterminate_iff (p a b : vec2) :
  dist_to_segment p a b = None <-> a = b.
Proof.
  unfold dist_to_segment, fdiv. split.
  - destruct (Req_dec_T (dot2 (sub2 b a) (sub2 b a)) 0) as [E | _];
      [| cbn; discriminate].
    intros _. apply dot2_self_zero in E. destruct E as [Ex Ey].
    destruct a, b. unfold sub2, zip2 in *. cbn [x2 y2] in *.
    f_equal; lra.
  - intros ->.
    destruct (Req_dec_T (dot2 (sub2 b b) (sub2 b b)) 0) as [_ | N];
      [reflexivity |].
    exfalso. apply N. unfold dot2, sub2, zip2. cbn [x2 y2]. ring.
Qed.

(** The squared length of [pa - ba * s], as a polynomial in [s]. *)
Lemma residual_sq (u v c e s : R) :
  (u - c * s) * (u - c * s) + (v - e * s) * (v - e * s)
  = (u * u + v * v) - 2 * s * (u * c + v * e) + s * s * (c * c + e * e).
Proof. ring. Qed.

(** The clamped projection minimises the residual over [0, 1]. *)
Lemma clamped_projection_minimal (u v c e s : R) :
  0 < c * c + e * e ->
  0 <= s <= 1 ->
  let h := clamp ((u * c + v * e) / (c * c + e * e)) 0 1 in
  (u - c * h) * (u - c * h) + (v - e * h) * (v - e * h)
  <= (u - c * s) * (u - c * s) + (v - e * s) * (v - e * s).
Proof.
  intros HD Hs h. rewrite !residual_sq.
  set (D := c * c + e * e) in *. set (N := u * c + v * e) in *.
  set (t := N / D) in *.
  assert (HN : N = t * D) by (unfold t; field; lra).
  rewrite HN.
  destruct (Rle_lt_dec t 0) as [Ht0 | Ht0].
  - subst h. rewrite clamp_below by exact Ht0.
    assert (0 <= s * (s - 2 * t) * D)
      by (apply Rmult_le_pos; [apply Rmult_le_pos |]; lra).
    nra.
  - destruct (Rle_lt_dec 1 t) as [Ht1 | Ht1].
    + subst h. rewrite clamp_above by exact Ht1.
      assert (0 <= (1 - s) * (2 * t - 1 - s) * D)
        by (apply Rmult_le_pos; [apply Rmult_le_pos |]; lra).
      nra.
    + subst h. rewrite clamp_inside by lra.
      assert (0 <= (s - t) * (s - t) * D)
        by (apply Rmult_le_pos; [apply (Rle_0_sqr (s - t)) | lra]).
      nra.
Qed.

(** [dist_to_segment] returns the distance from [p] to the closest point of
    the closed segment from [a] to [b]: the value is attained at a point of
    the segment and no point of the segment is closer. *)
Theorem dist_to_segment_is_minimum (p a b : vec2) (d : R) :
  dist_to_segment p a b = Some d ->
  (exists h, 0 <= h <= 1 /\
             d = distance2 p (add2 a (scale2 (sub2 b a) h))) /\
  (forall s, 0 <= s <= 1 ->
             d <= distance2 p (add2 a (scale2 (sub2 b a) s))).
Proof.
  intros Hd. unfold dist_to_segment, fdiv in Hd.
  destruct (Req_dec_T (dot2 (sub2 b a) (sub2 b a)) 0) as [E | HD];
    [discriminate |].
  cbn [bind] in Hd. injection Hd as <-.
  assert (Hpos : 0 < dot2 (sub2 b a) (sub2 b a)).
  { pose proof (dot2_self_nonneg (sub2 b a)). lra. }
  destruct p as [px py], a as [ax ay], b as [bx by'].
  unfold distance2, length2, dot2, sub2, add2, scale2, zip2, map2 in *.
  cbn [x2 y2] in *.
  set (h := clamp (((px - ax) * (bx - ax) + (py - ay) * (by' - ay))
                   / ((bx - ax) * (bx - ax) + (by' - ay) * (by' - ay))) 0 1).
  split.
  - exists h. split; [apply clamp_unit |].
    f_equal. ring.
  - intros s Hs. apply sqrt_le_1_alt.
    pose proof (clamped_projection_minimal (px - ax) (py - ay) (bx - ax)
                  (by' - ay) s Hpos Hs) as Hmin.
    cbv zeta in Hmin. fold h in Hmin.
    replace ((px - (ax + (bx - ax) * s)) * (px - (ax + (bx - ax) * s))
             + (py - (ay + (by' - ay) * s)) * (py - (ay + (by' - ay) * s)))
      with ((px - ax - (bx - ax) * s) * (px - ax - (bx - ax) * s)
            + (py - ay - (by' - ay) * s) * (py - ay - (by' - ay) * s)) by ring.
    exact Hmin.
Qed.

Lemma dist_to_segment_is_minimum_witness :
  5 <= distance2 (Vec2 5 5) (add2 (Vec2 0 0) (scale2 (sub2 (Vec2 10 0) (Vec2 0 0)) 1)).
Proof.
  refine (proj2 (dist_to_segment_is_minimum (Vec2 5 5) (Vec2 0 0) (Vec2 10 0) 5
                   dist_to_segment_above_middle) 1 _).
  lra.
Defined.

End DistToSegment.

(** ** The Hermite ramp of [smoothstep] *)
Section Ramp.
Import Wgsl GlowSpec.


Lemma clamp_zero_iff (q : R) : clamp q 0 1 = 0 <-> q <= 0.
Proof.
  unfold clamp, Rmin, Rmax.
  destruct (Rle_dec q 0); destruct (Rle_dec _ 1); lra.
Qed.

Lemma clamp_one_iff (q : R) : clamp q 0 1 = 1 <-> 1 <= q.
Proof.
  unfold clamp, Rmin, Rmax.
  destruct (Rle_dec q 0); destruct (Rle_dec _ 1); lra.
Qed.

Lemma hermite_zero_iff (t : R) :
  0 <= t <= 1 -> (t * t * (3 - 2 * t) = 0 <-> t = 0).
Proof.
  intros Ht. split.
  - intros H. destruct (Rmult_integral _ _ H) as [H2 | H3]; [| lra].
    destruct (Rmult_integral _ _ H2); assumption.
  - intros ->. ring.
Qed.

Lemma hermite_one_iff (t : R) :
  0 <= t <= 1 -> (t * t * (3 - 2 * t) = 1 <-> t = 1).
Proof.
  intros Ht. split.
  - intros H.
    assert (H' : (1 - t) * (1 - t) * (1 + 2 * t) = 0) by lra.
    destruct (Rmult_integral _ _ H') as [H2 | H3]; [| lra].
    destruct (Rmult_integral _ _ H2); lra.
  - intros ->. ring.
Qed.


(** With reversed edges [low > high] the ramp falls from 1 to 0: it is 1
    exactly at or below [high] and 0 exactly at or above [low]. *)
Lemma falling_ramp (low high x : R) :
  high < low ->
  (smoothstep_val low high x = 0 <-> low <= x) /\
  (smoothstep_val low high x = 1 <-> x <= high).
Proof.
  intros Hlh. unfold smoothstep_val. cbv zeta.
  pose proof (clamp_unit ((x - low) / (high - low))) as Hc.
  rewrite (hermite_zero_iff _ Hc), (hermite_one_iff _ Hc).
  rewrite clamp_zero_iff, clamp_one_iff.
  assert (Hneg : high - low < 0) by lra.
  assert (Hq : (x - low) / (high - low) * (high - low) = x - low)
    by (field; lra).
  split; split; intros H; nra.
Qed.


End Ramp.

(** ** The Waveform-SDF fragment stage on a non-empty buffer *)
Section SdfOutput.
Import Wgsl Geometry WaveformSDF GlowSpec.









End SdfOutput.

(** ** Pixel coordinates of the Waveform-SDF fragment *)
Section SdfPixels.
Import Wgsl Geometry WaveformSDF.

Lemma quotient_unit (a b : R) : 0 <= a <= b -> 0 < b -> 0 <= a / b <= 1.
Proof.
  intros [Ha Hab] Hb.
  assert (Hinv : 0 < / b) by now apply Rinv_0_lt_compat.
  assert (Hone : b * / b = 1) by (apply Rinv_r; lra).
  unfold Rdiv. split; nra.
Qed.

(** The fragment stage maps the clip square onto the pixel rectangle
    [0, resolution_x] x [0, resolution_y]: every interpolated [frag_coord] of
    the clip square lands in the rectangle, and every point of the rectangle
    is the image of a point of the square. *)
Theorem sdf_pixel_rectangle (uniforms : Uniforms) :
  0 < resolution_x uniforms ->
  0 < resolution_y uniforms ->
  (forall inp,
     in_clip_square (frag_coord inp) ->
     0 <= x2 (frag_coord_px uniforms inp) <= resolution_x uniforms /\
     0 <= y2 (frag_coord_px uniforms inp) <= resolution_y uniforms) /\
  (forall q,
     0 <= x2 q <= resolution_x uniforms ->
     0 <= y2 q <= resolution_y uniforms ->
     exists p,
       in_clip_square p /\
       forall cp,
         frag_coord_px uniforms {| clip_position := cp; frag_coord := p |} = q).
Proof.
  intros Hx Hy. split.
  - intros inp [[Hx0 Hx1] [Hy0 Hy1]].
    unfold frag_coord_px, resolution, divs2, adds2, mul2, zip2, map2.
    cbn [x2 y2]. split; split; nra.
  - intros [qx qy] Hqx Hqy. cbn [x2 y2] in *.
    exists (Vec2 (2 * qx / resolution_x uniforms - 1)
                 (2 * qy / resolution_y uniforms - 1)).
    assert (Hqx' : 0 <= qx / resolution_x uniforms <= 1)
      by (apply quotient_unit; lra).
    assert (Hqy' : 0 <= qy / resolution_y uniforms <= 1)
      by (apply quotient_unit; lra).
    split.
    + unfold in_clip_square. cbn [x2 y2]. unfold Rdiv in *. lra.
    + intros cp.
      unfold frag_coord_px, resolution, divs2, adds2, mul2, zip2, map2.
      cbn [x2 y2 frag_coord]. f_equal; field; lra.
Qed.

Lemma sdf_pixel_rectangle_witness :
  0 <= x2 (frag_coord_px
             {| time := 0; resolution_x := 800; resolution_y := 600; num_columns := 0 |}
             {| clip_position := Vec4 0 0 0 1; frag_coord := Vec2 0 0 |})
    <= 800.
Proof.
  assert (Hsq : in_clip_square (Vec2 0 0)) by (unfold in_clip_square; cbn; lra).
  refine (proj1 (proj1 (sdf_pixel_rectangle
    {| time := 0; resolution_x := 800; resolution_y := 600; num_columns := 0 |}
    _ _) {| clip_position := Vec4 0 0 0 1; frag_coord := Vec2 0 0 |} Hsq));
    cbn; lra.
Defined.

End SdfPixels.

(** ** The line strip of the Waveform-Direct renderer *)
Section DirectStrip.
Import Wgsl Geometry WaveformDirect.

Lemma direct_in_range (eeg_data : list R) (i : Z) :
  (2 <= arrayLength eeg_data)%Z ->
  (0 <= i < arrayLength eeg_data)%Z ->
  exists e,
    index eeg_data i = Some e /\
    clip_position (vs_main eeg_data i)
    = OVec4 (Some (-1 + IZR i / IZR (arrayLength eeg_data - 1) * 2))
            (Some (e * 0.5)) (Some 0) (Some 1).
Proof.
  intros HN Hi. pose proof (arrayLength_range eeg_data) as Hrange.
  destruct (index_in_bounds eeg_data i Hi) as [e He].
  exists e. split; [exact He |].
  unfold vs_main.
  destruct (Z.geb_spec i (arrayLength eeg_data)) as [Hge | _]; [lia |].
  cbn [clip_position]. rewrite He. cbn [bind].
  assert (Hsub : u32_sub (arrayLength eeg_data) 1 = (arrayLength eeg_data - 1)%Z)
    by (apply u32_small; lia).
  rewrite Hsub. unfold f32.
  rewrite fdiv_defined by (apply not_0_IZR; lia).
  reflexivity.
Qed.

(** With at least two samples in [-1, 1], every vertex below the sample
    count is inside the clip square: [x] runs from -1 at the first sample to
    1 at the last one, and [y] stays within [-0.5, 0.5]. *)
Theorem direct_strip_on_screen (eeg_data : list R) (i : Z) :
  (2 <= arrayLength eeg_data)%Z ->
  (0 <= i < arrayLength eeg_data)%Z ->
  Forall (fun e => -1 <= e <= 1) eeg_data ->
  exists x y,
    clip_position (vs_main eeg_data i) = OVec4 (Some x) (Some y) (Some 0) (Some 1) /\
    -1 <= x <= 1 /\ -0.5 <= y <= 0.5 /\
    (i = 0%Z -> x = -1) /\
    (i = (arrayLength eeg_data - 1)%Z -> x = 1).
Proof.
  intros HN Hi Hall.
  destruct (direct_in_range eeg_data i HN Hi) as (e & He & Hpos).
  assert (He1 : -1 <= e <= 1).
  { unfold index in He. destruct (Z.ltb_spec i 0); [lia |].
    apply nth_error_In in He.
    rewrite Forall_forall in Hall. now apply Hall. }
  assert (Hden : 0 < IZR (arrayLength eeg_data - 1)) by (apply IZR_lt; lia).
  assert (Hnum0 : 0 <= IZR i) by (apply IZR_le; lia).
  assert (Hnum1 : IZR i <= IZR (arrayLength eeg_data - 1)) by (apply IZR_le; lia).
  assert (Hq : 0 <= IZR i / IZR (arrayLength eeg_data - 1) <= 1)
    by (apply quotient_unit; lra).
  do 2 eexists. split; [exact Hpos |].
  split; [lra | split; [lra | split]].
  - intros ->. unfold Rdiv. lra.
  - intros ->. unfold Rdiv. rewrite Rinv_r by lra. lra.
Qed.

Lemma direct_strip_on_screen_witness :
  exists x y,
    clip_position (vs_main [0.2; 0.4; 0.6] 2)
      = OVec4 (Some x) (Some y) (Some 0) (Some 1) /\
    -1 <= x <= 1 /\ -0.5 <= y <= 0.5.
Proof.
  destruct (direct_strip_on_screen [0.2; 0.4; 0.6] 2)
    as (x & y & Hpos & Hx & Hy & _).
  - vm_compute. discriminate.
  - vm_compute. split; [discriminate | reflexivity].
  - repeat constructor; lra.
  - exists x, y. repeat split; try assumption; lra.
Defined.

End DirectStrip.

(** ** Additive blending in the Column-Glow renderer *)
Section GlowBlending.
Import Wgsl Geometry ColumnGlow GlowSpec.

(** One step of [accumulate]. *)
Lemma add3_swap (c a b : vec3) : add3 (add3 c a) b = add3 (add3 c b) a.
Proof.
  destruct c, a, b. unfold add3, zip3. cbn [x3 y3 z3]. f_equal; ring.
Qed.

Lemma accumulate_from_permutation (keep : Column -> bool) (uv : vec2)
    (l l' : list Column) :
  Permutation l l' ->
  forall c,
    fold_left (fun final_color col =>
                 if keep col then add3 final_color (contribution uv col)
                 else final_color) l c
    = fold_left (fun final_color col =>
                   if keep col then add3 final_color (contribution uv col)
                   else final_color) l' c.
Proof.
  induction 1 as [| x l l' _ IH | x y l | l l' l'' _ IH1 _ IH2]; intros c.
  - reflexivity.
  - cbn [fold_left]. apply IH.
  - cbn [fold_left]. destruct (keep x), (keep y); try reflexivity.
    now rewrite add3_swap.
  - now rewrite IH1.
Qed.

(** The loop with an indeterminate [uv]: it is indeterminate as soon as one
    column is kept, and leaves the background otherwise. *)
Lemma for_from_stops {B : Type} (stop : B -> bool)
    (body : Z -> vec3 -> option vec3) :
  forall (l : list B) (i : Z) (acc : vec3),
    (0 <= i)%Z -> (i + Z.of_nat (length l) < u32_modulus)%Z ->
    (forall j a b, (i <= j)%Z -> nth_error l (Z.to_nat (j - i)) = Some b ->
                   body j a = if stop b then None else Some a) ->
    for_from (length l) i body acc = if existsb stop l then None else Some acc.
Proof.
  induction l as [| b l IH]; intros i acc Hi Hbound Hbody; [reflexivity |].
  cbn [length for_from existsb].
  rewrite (Hbody i acc b) by (try lia; now replace (i - i)%Z with 0%Z by lia).
  destruct (stop b); [reflexivity |]. cbn [bind orb].
  assert (Hnext : u32_add i 1 = (i + 1)%Z).
  { apply u32_small. cbn [length] in Hbound. lia. }
  rewrite Hnext. apply IH; [lia | cbn [length] in Hbound; lia |].
  intros j a b' Hj Hnth. apply Hbody; [lia |].
  replace (Z.to_nat (j - i)) with (S (Z.to_nat (j - (i + 1)))) by lia.
  exact Hnth.
Qed.

Lemma composite_without_uv (columns : list Column) :
  (Z.of_nat (length columns) < u32_modulus)%Z ->
  composite (arrayLength columns) columns None
  = if existsb kept_by_intensity columns then None else Some background.
Proof.
  intros Hlen. unfold composite, for_u32, arrayLength.
  rewrite u32_small by lia. rewrite Nat2Z.id.
  apply for_from_stops; [lia | lia |].
  intros j c col Hj Hnth.
  rewrite (glow_loop_body_any_uv _ _ _ _ col); [reflexivity |].
  unfold index. destruct (Z.ltb_spec j 0); [lia |].
  now replace (j - 0)%Z with j in Hnth by lia.
Qed.

Lemma existsb_permutation {B : Type} (f : B -> bool) (l l' : list B) :
  Permutation l l' -> existsb f l = existsb f l'.
Proof.
  induction 1 as [| x l l' _ IH | x y l | l l' l'' _ IH1 _ IH2].
  - reflexivity.
  - cbn [existsb]. now rewrite IH.
  - cbn [existsb]. now destruct (f x), (f y).
  - now rewrite IH1.
Qed.

(** The aspect-corrected coordinate [uv] divides by [resolution.y] and is
    read only for a kept column.  So the fragment stage is determinate for
    every non-zero height, and when no column of the buffer passes the test
    [intensity > 0.01] the fragment is the background for every resolution,
    a height of 0 included. *)
Theorem glow_uv_read_when_kept (uniforms : Uniforms) (columns : list Column)
    (frag_coord : vec4) :
  (resolution_y uniforms <> 0 ->
   exists out, fs_main uniforms columns frag_coord = Some out) /\
  (Forall (fun col => intensity col <= 0.01) columns ->
   fs_main uniforms columns frag_coord = Some (Vec4 0 0 0.02 1)).
Proof.
  pose proof (arrayLength_range columns) as Hrange. split.
  - intros Hy. unfold fs_main. cbv zeta.
    rewrite (centered_uv_defined _ _ Hy).
    destruct (composite_above_background columns
      (Vec2 ((x4 frag_coord - 0.5 * resolution_x uniforms) / resolution_y uniforms)
            ((y4 frag_coord - 0.5 * resolution_y uniforms) / resolution_y uniforms))
      (arrayLength columns)) as (c & Hc & _); [lia |].
    rewrite Hc. eexists. reflexivity.
  - intros Hall. unfold fs_main. cbv zeta.
    destruct (for_u32_invariant (fun _ c => c = background)
                (loop_body columns (centered_uv uniforms frag_coord))
                (arrayLength columns) background)
      as (c & Hc & ->).
    + lia.
    + reflexivity.
    + intros j c Hj ->.
      destruct (index_in_bounds columns j) as [col Hcol]; [lia |].
      rewrite (glow_loop_body_any_uv _ _ _ _ col Hcol).
      assert (Hskip : kept_by_intensity col = false).
      { rewrite Forall_forall in Hall.
        assert (Hin : In col columns).
        { unfold index in Hcol. destruct (Z.ltb_spec j 0); [lia |].
          now apply nth_error_In in Hcol. }
        specialize (Hall col Hin). cbv beta in Hall.
        unfold kept_by_intensity, gt.
        destruct (Rlt_dec 0.01 (intensity col)); [lra | reflexivity]. }
      rewrite Hskip. eexists. split; reflexivity.
    + unfold composite. rewrite Hc. reflexivity.
Qed.

(** A target of height 0 with one inactive column: the fragment is the
    background; a target of height 1 with one active column: the fragment is
    determinate. *)
Lemma glow_uv_read_when_kept_witness :
  fs_main {| time := 0; resolution_x := 800; resolution_y := 0;
             num_columns := 1 |}
          [{| pos := Vec2 0 0; state := 0 |}] (Vec4 400.5 0.5 0 1)
  = Some (Vec4 0 0 0.02 1) /\
  exists out,
    fs_main (GlowExample.unit_target 1) [GlowExample.centre_column]
            GlowExample.centre_frag = Some out.
Proof.
  split.
  - apply glow_uv_read_when_kept.
    constructor; [| constructor].
    cbv beta. rewrite inactive_intensity. lra.
  - apply glow_uv_read_when_kept. cbn. lra.
Defined.

(** Additive blending does not depend on the order of the columns in the
    buffer: a permuted buffer gives the same fragment. *)
Theorem glow_order_independent (uniforms : Uniforms) (columns columns' : list Column)
    (frag_coord : vec4) :
  Permutation columns columns' ->
  (Z.of_nat (length columns) < u32_modulus)%Z ->
  fs_main uniforms columns frag_coord = fs_main uniforms columns' frag_coord.
Proof.
  intros Hperm Hlen.
  destruct (centered_uv uniforms frag_coord) as [uv |] eqn:Huv.
  - rewrite (glow_fs_main_accumulate _ _ _ uv Huv Hlen).
    rewrite (glow_fs_main_accumulate _ _ _ uv Huv)
      by (rewrite <- (Permutation_length Hperm); exact Hlen).
    unfold accumulate. now rewrite (accumulate_from_permutation _ _ _ _ Hperm).
  - unfold fs_main. cbv zeta. rewrite Huv.
    rewrite !composite_without_uv
      by (try rewrite <- (Permutation_length Hperm); exact Hlen).
    now rewrite (existsb_permutation _ _ _ Hperm).
Qed.

Lemma glow_order_independent_witness :
  fs_main (GlowExample.unit_target 2)
          [GlowExample.edge_column; GlowExample.centre_column] GlowExample.centre_frag
  = fs_main (GlowExample.unit_target 2)
            [GlowExample.centre_column; GlowExample.edge_column] GlowExample.centre_frag.
Proof.
  apply glow_order_independent.
  - apply perm_swap.
  - cbn. unfold u32_modulus. lia.
Defined.

(** A column beyond the radius 0.03 has coverage 0. *)
Lemma coverage_outside (uv : vec2) (col : Column) :
  0.03 <= distance2 uv (pos col) -> coverage uv col = 0.
Proof.
  intros Hd. unfold coverage.
  now apply (falling_ramp 0.03 (0.03 - 0.03 * 0.9)); [lra |].
Qed.

Lemma glow_step_idle (uv : vec2) (col : Column) :
  intensity col <= 0.01 \/ 0.03 <= distance2 uv (pos col) ->
  (if kept_by_intensity col then add3 background (contribution uv col)
   else background) = background.
Proof.
  intros Hidle. unfold kept_by_intensity, gt.
  destruct (Rlt_dec 0.01 (intensity col)) as [Hkept | _]; [| reflexivity].
  destruct Hidle as [Hlow | Hfar]; [lra |].
  unfold contribution. rewrite (coverage_outside _ _ Hfar).
  unfold add3, zip3, scale3, smul3, map3, background, base_color.
  cbn [x3 y3 z3]. f_equal; lra.
Qed.

(** A fragment sees only the background when every column of the buffer is
    either too weak ([intensity <= 0.01]) or at least 0.03 away from it. *)
Theorem glow_background_only (uniforms : Uniforms) (columns : list Column)
    (frag_coord : vec4) (uv : vec2) :
  centered_uv uniforms frag_coord = Some uv ->
  Forall (fun col => intensity col <= 0.01 \/ 0.03 <= distance2 uv (pos col))
         columns ->
  fs_main uniforms columns frag_coord = Some (Vec4 0 0 0.02 1).
Proof.
  intros Huv Hall. pose proof (arrayLength_range columns) as Hrange.
  unfold fs_main. cbv zeta. rewrite Huv.
  destruct (for_u32_invariant (fun _ c => c = background)
              (loop_body columns (Some uv)) (arrayLength columns) background)
    as (c & Hc & ->).
  - lia.
  - reflexivity.
  - intros j c Hj ->.
    destruct (index_in_bounds columns j) as [col Hcol]; [lia |].
    rewrite (glow_loop_body _ _ _ _ col Hcol).
    eexists. split; [reflexivity |].
    apply glow_step_idle.
    rewrite Forall_forall in Hall. apply Hall.
    unfold index in Hcol. destruct (Z.ltb_spec j 0); [lia |].
    now apply nth_error_In in Hcol.
  - unfold composite. rewrite Hc. reflexivity.
Qed.

Lemma glow_background_only_witness :
  fs_main (GlowExample.unit_target 1)
          [{| pos := Vec2 0 0; state := 0 |}] GlowExample.centre_frag
  = Some (Vec4 0 0 0.02 1).
Proof.
  apply (glow_background_only _ _ _ (Vec2 0 0)).
  - apply example_uv.
  - constructor; [| constructor].
    left. rewrite inactive_intensity. lra.
Defined.

(** Each column adds at most [1.5 * base_hue]: with [n] columns in the
    buffer no component exceeds the background by more than [n] times
    [1.5 * base_hue]. *)
Theorem glow_brightness_bound (uniforms : Uniforms) (columns : list Column)
    (frag_coord : vec4) :
  resolution_y uniforms <> 0 ->
  exists c,
    fs_main uniforms columns frag_coord = Some (vec4_of3 c 1) /\
    x3 c <= 0.15 * IZR (arrayLength columns) /\
    y3 c <= 1.05 * IZR (arrayLength columns) /\
    z3 c <= 0.02 + 1.35 * IZR (arrayLength columns).
Proof.
  intros Hy. pose proof (arrayLength_range columns) as Hrange.
  unfold fs_main. cbv zeta. rewrite (centered_uv_defined _ _ Hy).
  set (uv := Vec2 _ _).
  destruct (for_u32_invariant
              (fun j c => x3 c <= 0.15 * IZR j /\ y3 c <= 1.05 * IZR j /\
                          z3 c <= 0.02 + 1.35 * IZR j)
              (loop_body columns (Some uv)) (arrayLength columns) background)
    as (c & Hc & Hbound).
  - lia.
  - unfold background. cbn [x3 y3 z3]. repeat split; lra.
  - intros j c Hj (Hx & Hy' & Hz).
    destruct (index_in_bounds columns j) as [col Hcol]; [lia |].
    rewrite (glow_loop_body _ _ _ _ col Hcol).
    eexists. split; [reflexivity |].
    rewrite plus_IZR.
    pose proof (coverage_unit uv col) as Hcov.
    pose proof (intensity_unit col) as Hint.
    assert (Hprod : 0 <= coverage uv col * intensity col <= 1) by nra.
    destruct (kept_by_intensity col).
    + unfold contribution, add3, zip3, scale3, smul3, map3, base_color.
      cbn [x3 y3 z3]. repeat split; lra.
    + repeat split; lra.
  - exists c. unfold composite. rewrite Hc. split; [reflexivity | exact Hbound].
Qed.

Lemma glow_brightness_bound_witness :
  exists c,
    fs_main (GlowExample.unit_target 1) [GlowExample.centre_column]
            GlowExample.centre_frag = Some (vec4_of3 c 1) /\
    y3 c <= 1.05 * IZR (arrayLength [GlowExample.centre_column]).
Proof.
  destruct (glow_brightness_bound (GlowExample.unit_target 1)
              [GlowExample.centre_column] GlowExample.centre_frag)
    as (c & Hc & _ & Hy & _).
  - cbn. lra.
  - exists c. split; assumption.
Defined.

(** Appending a column to the buffer adds its contribution, if it is kept,
    to every fragment and leaves the rest of the sum untouched; no component
    of any fragment gets darker. *)
Theorem glow_append_column (uniforms : Uniforms) (columns : list Column)
    (col : Column) (frag_coord : vec4) (uv : vec2) :
  centered_uv uniforms frag_coord = Some uv ->
  (Z.of_nat (length (columns ++ [col])) < u32_modulus)%Z ->
  exists c,
    fs_main uniforms columns frag_coord = Some (vec4_of3 c 1) /\
    fs_main uniforms (columns ++ [col]) frag_coord
      = Some (vec4_of3 (if gt (intensity col) 0.01
                        then add3 c (contribution uv col) else c) 1) /\
    le3 c (if gt (intensity col) 0.01 then add3 c (contribution uv col) else c).
Proof.
  intros Huv Hlen.
  assert (Hlen' : (Z.of_nat (length columns) < u32_modulus)%Z).
  { rewrite length_app in Hlen. cbn [length] in Hlen. lia. }
  exists (accumulate kept_by_intensity uv columns).
  split; [now apply glow_fs_main_accumulate |].
  split.
  - rewrite (glow_fs_main_accumulate _ _ _ uv Huv Hlen).
    unfold accumulate. rewrite fold_left_app. reflexivity.
  - destruct (gt (intensity col) 0.01).
    + destruct (contribution_nonneg uv col) as (Hx & Hy & Hz).
      unfold le3, add3, zip3 in *. cbn [x3 y3 z3] in *. repeat split; lra.
    + unfold le3. repeat split; lra.
Qed.

Lemma glow_append_column_witness :
  exists c,
    fs_main (GlowExample.unit_target 1) [GlowExample.edge_column]
            GlowExample.centre_frag = Some (vec4_of3 c 1) /\
    fs_main (GlowExample.unit_target 1)
            ([GlowExample.edge_column] ++ [GlowExample.centre_column])
            GlowExample.centre_frag
      = Some (vec4_of3 (if gt (intensity GlowExample.centre_column) 0.01
                        then add3 c (contribution (Vec2 0 0) GlowExample.centre_column)
                        else c) 1).
Proof.
  destruct (glow_append_column (GlowExample.unit_target 1)
              [GlowExample.edge_column] GlowExample.centre_column
              GlowExample.centre_frag (Vec2 0 0))
    as (c & Hc & Happ & _).
  - apply example_uv.
  - cbn. unfold u32_modulus. lia.
  - exists c. split; assumption.
Defined.

End GlowBlending.

(** ** Parameters and colours of the Organic-Noise renderer *)
Section NoiseRange.
Import Wgsl OrganicNoise GlowSpec.

Lemma mix_between (e1 e2 t lo hi : R) :
  0 <= t <= 1 -> lo <= e1 <= hi -> lo <= e2 <= hi -> lo <= mix e1 e2 t <= hi.
Proof. intros Ht H1 H2. unfold mix. split; nra. Qed.

(** As the awareness level rises the animation slows down, the pattern
    zooms out and the distortion fades, while the weight of the bright hue
    grows; on [0, 1] the parameters stay between their end values. *)
Theorem noise_parameters_monotone (a b : R) :
  0 <= a -> a <= b -> b <= 1 ->
  (time_speed b <= time_speed a /\ zoom b <= zoom a /\
   distortion_amount b <= distortion_amount a /\
   bright_weight a <= bright_weight b) /\
  (0.1 <= time_speed a <= 2.0 /\ 2.0 <= zoom a <= 5.0 /\
   0.0 <= distortion_amount a <= 0.8 /\ 0 <= bright_weight a <= 1).
Proof.
  intros Ha Hab Hb.
  unfold time_speed, zoom, distortion_amount, bright_weight, mix.
  repeat split; nra.
Qed.

Lemma noise_parameters_monotone_witness :
  time_speed 0.75 <= time_speed 0.25 /\ 2.0 <= zoom 0.25 <= 5.0.
Proof.
  destruct (noise_parameters_monotone 0.25 0.75 ltac:(lra) ltac:(lra) ltac:(lra))
    as [(Hspeed & _) (_ & Hzoom & _)].
  split; assumption.
Defined.

(** The fragment stage is indeterminate exactly when a dimension of the
    target is 0 ([uv] divides by the resolution). *)
Theorem noise_indeterminate_iff (uniforms : Uniforms) (frag_coord : vec4) :
  fs_main uniforms frag_coord = None
  <-> resolution_x uniforms = 0 \/ resolution_y uniforms = 0.
Proof.
  unfold fs_main, fdiv2, fdiv. cbn [x2 y2]. split.
  - destruct (Req_dec_T (resolution_x uniforms) 0) as [Ex | Hx]; [now left |].
    destruct (Req_dec_T (resolution_y uniforms) 0) as [Ey | Hy]; [now right |].
    cbn [bind]. rewrite smoothstep_some by lra. cbn [bind]. discriminate.
  - intros [Ex | Ey].
    + destruct (Req_dec_T (resolution_x uniforms) 0); [reflexivity | contradiction].
    + destruct (Req_dec_T (resolution_x uniforms) 0); [reflexivity |].
      cbn [bind].
      destruct (Req_dec_T (resolution_y uniforms) 0); [reflexivity | contradiction].
Qed.

(** For an awareness level in [0, 1] the fragment is an opaque colour between
    the darkest and the brightest hue of the palette, whatever the noise:
    red in [0, 0.8], green in [0, 0.9], blue in [0.05, 1]. *)
Theorem noise_colour_range (uniforms : Uniforms) (frag_coord : vec4) :
  resolution_x uniforms <> 0 ->
  resolution_y uniforms <> 0 ->
  0 <= awareness_level uniforms <= 1 ->
  exists out,
    fs_main uniforms frag_coord = Some out /\
    0 <= x4 out <= 0.8 /\ 0 <= y4 out <= 0.9 /\ 0.05 <= z4 out <= 1 /\
    w4 out = 1.
Proof.
  intros Hx Hy Ha. unfold fs_main, fdiv2. cbn [x2 y2].
  rewrite !fdiv_defined by assumption. cbn [bind].
  rewrite smoothstep_some by lra. cbn [bind].
  match goal with
  | |- context [smoothstep_val (-0.1) 0.4 ?v] =>
      pose proof (smoothstep_val_unit (-0.1) 0.4 v) as Hs;
      generalize dependent (smoothstep_val (-0.1) 0.4 v)
  end.
  intros s Hs.
  assert (Hw : 0 <= bright_weight (awareness_level uniforms) <= 1)
    by (unfold bright_weight; nra).
  eexists. split; [reflexivity |].
  unfold vec4_of3, mix3, zip3, dark_color, mid_color, bright_color.
  cbn [x3 y3 z3 x4 y4 z4 w4].
  split; [| split; [| split; [| lra]]].
  - apply mix_between; [exact Hw | | lra]. apply mix_between; [exact Hs | lra | lra].
  - apply mix_between; [exact Hw | | lra]. apply mix_between; [exact Hs | lra | lra].
  - apply mix_between; [exact Hw | | lra]. apply mix_between; [exact Hs | lra | lra].
Qed.

Lemma noise_colour_range_witness :
  exists out,
    fs_main {| time := 3; resolution_x := 800; resolution_y := 600;
               awareness_level := 0.5 |} (Vec4 10 20 0 1) = Some out /\
    0.05 <= z4 out <= 1 /\ w4 out = 1.
Proof.
  destruct (noise_colour_range
              {| time := 3; resolution_x := 800; resolution_y := 600;
                 awareness_level := 0.5 |} (Vec4 10 20 0 1))
    as (out & Hout & _ & _ & Hz & Hw).
  - cbn. lra.
  - cbn. lra.
  - cbn. lra.
  - exists out. repeat split; try assumption; lra.
Defined.

End NoiseRange.

(** ** The amplitude of the simplex noise *)
Section NoiseHash.
Import Wgsl OrganicNoise.

Lemma floor_bounds (e : R) : floor e <= e < floor e + 1.
Proof. unfold floor. destruct (base_Int_part e). lra. Qed.

Lemma fract_unit (e : R) : 0 <= fract e < 1.
Proof. unfold fract. pose proof (floor_bounds e). lra. Qed.

Lemma abs_bound (t B : R) : Rabs t <= B -> - B <= t <= B.
Proof.
  intros H. pose proof (Rle_abs t). pose proof (Rle_abs (- t)) as Hn.
  rewrite Rabs_Ropp in Hn. lra.
Qed.

(** The contribution of one simplex corner: the fourth power of the radial
    falloff, the normalisation factor and the gradient dot product. *)
Lemma corner_term_bound (X Y a0 h : R) :
  -0.5 <= a0 <= 0.5 -> -0.5 <= h <= 0.5 ->
  Rabs (Rmax (0.5 - (X * X + Y * Y)) 0 * Rmax (0.5 - (X * X + Y * Y)) 0
        * (Rmax (0.5 - (X * X + Y * Y)) 0 * Rmax (0.5 - (X * X + Y * Y)) 0)
        * (1.79284291400159 - 0.85373472095314 * (a0 * a0 + h * h))
        * (a0 * X + h * Y)) <= 0.0561.
Proof.
  intros Ha Hh.
  assert (Hsq : 0 <= a0 * a0 + h * h <= 0.5) by nra.
  set (F := 1.79284291400159 - 0.85373472095314 * (a0 * a0 + h * h)).
  assert (HF : 0 <= F <= 1.79284291400159) by (unfold F; lra).
  apply Rmax_case_strong; intros Hm.
  - assert (Hd : X * X + Y * Y <= 0.5) by lra.
    assert (Hd0 : 0 <= X * X + Y * Y) by nra.
    set (m := 0.5 - (X * X + Y * Y)) in *.
    assert (Hm1 : m <= 0.5) by (unfold m; lra).
    assert (Hq : 0 <= m * m <= 0.25) by nra.
    assert (Hq4 : 0 <= m * m * (m * m) <= 0.0625) by nra.
    set (q := m * m * (m * m)) in *.
    assert (HqF : 0 <= q * F <= 0.0625 * 1.79284291400159).
    { split; [apply Rmult_le_pos; lra |].
      apply Rmult_le_compat; lra. }
    assert (Hcs : (a0 * X + h * Y) * (a0 * X + h * Y)
                  <= (a0 * a0 + h * h) * (X * X + Y * Y)).
    { assert (0 <= (a0 * Y - h * X) * (a0 * Y - h * X))
        by apply (Rle_0_sqr (a0 * Y - h * X)).
      nra. }
    assert (Hgg : (a0 * X + h * Y) * (a0 * X + h * Y) <= 0.25).
    { assert ((a0 * a0 + h * h) * (X * X + Y * Y) <= 0.5 * 0.5)
        by (apply Rmult_le_compat; lra).
      lra. }
    assert (Hg : -0.5 <= a0 * X + h * Y <= 0.5) by (split; nra).
    set (g := a0 * X + h * Y) in *.
    apply Rabs_le. split; nra.
  - replace (0 * 0 * (0 * 0) * F * (a0 * X + h * Y)) with 0 by ring.
    rewrite Rabs_R0. lra.
Qed.

(** The tail of [snoise], for arbitrary corner offsets and hash fractions. *)
Lemma snoise_tail_bound (x0 x1 x2' : vec2) (x : vec3) :
  -1 <= x3 x <= 1 -> -1 <= y3 x <= 1 -> -1 <= z3 x <= 1 ->
  let m := max3 (ssub3 0.5 (Vec3 (dot2 x0 x0) (dot2 x1 x1) (dot2 x2' x2')))
                (Vec3 0 0 0) in
  let m := mul3 m m in
  let m := mul3 m m in
  let h := subs3 (map3 Rabs x) 0.5 in
  let ox := map3 floor (adds3 x 0.5) in
  let a0 := sub3 x ox in
  let m :=
    mul3 m (ssub3 1.79284291400159
                  (smul3 0.85373472095314 (add3 (mul3 a0 a0) (mul3 h h)))) in
  let g := Vec3 (x3 a0 * x2 x0 + x3 h * y2 x0)
                (y3 a0 * x2 x1 + y3 h * y2 x1)
                (z3 a0 * x2 x2' + z3 h * y2 x2') in
  Rabs (130 * dot3 m g) <= 22.
Proof.
  intros Hx Hy Hz. cbv zeta.
  unfold dot3, dot2, max3, mul3, add3, sub3, ssub3, subs3, smul3, adds3, zip3, map3.
  cbn [x3 y3 z3].
  assert (Hfl : forall c, -0.5 <= c - floor (c + 0.5) <= 0.5).
  { intros c. pose proof (floor_bounds (c + 0.5)). lra. }
  assert (Hab : forall c, -1 <= c <= 1 -> -0.5 <= Rabs c - 0.5 <= 0.5).
  { intros c Hc. pose proof (Rabs_pos c).
    assert (Rabs c <= 1) by (apply Rabs_le; lra). lra. }
  pose proof (corner_term_bound (x2 x0) (y2 x0) _ _ (Hfl (x3 x)) (Hab _ Hx)) as H0.
  pose proof (corner_term_bound (x2 x1) (y2 x1) _ _ (Hfl (y3 x)) (Hab _ Hy)) as H1.
  pose proof (corner_term_bound (x2 x2') (y2 x2') _ _ (Hfl (z3 x)) (Hab _ Hz)) as H2.
  apply abs_bound in H0. apply abs_bound in H1. apply abs_bound in H2.
  apply Rabs_le.
  match type of H0 with _ <= ?t0 <= _ => set (t0' := t0) in * end.
  match type of H1 with _ <= ?t1 <= _ => set (t1' := t1) in * end.
  match type of H2 with _ <= ?t2 <= _ => set (t2' := t2) in * end.
  lra.
Qed.

End NoiseHash.

Section NoiseAmplitude.
Import Wgsl OrganicNoise.

(** [snoise] is bounded: whatever the coordinate, its value stays within
    [-22, 22] (three corners, each at most 130 * 0.0561). *)
Theorem snoise_bounded (v : vec2) : Rabs (snoise v) <= 22.
Proof.
  unfold snoise. cbv zeta.
  apply snoise_tail_bound;
    unfold subs3, smul3, map3; cbn [x3 y3 z3];
    match goal with
    | |- _ <= 2 * fract ?q - 1 <= _ => pose proof (fract_unit q); lra
    end.
Qed.

End NoiseAmplitude.

(** * The particle field *)
Section Particles.
Import Wgsl ParticleField.

Lemma get_some (a : list R) (i : nat) :
  (i < length a)%nat -> exists e, get a i = Some e.
Proof.
  intros Hi. unfold get. destruct (nth_error a i) as [e |] eqn:E; [now exists e |].
  apply nth_error_None in E. lia.
Qed.

Lemma length_set (a : list R) (i : nat) (v : R) : length (set a i v) = length a.
Proof.
  revert i. induction a as [| e a IH]; intros [| i]; cbn; try reflexivity.
  now rewrite IH.
Qed.

Lemma get_set_eq (a : list R) (i : nat) (v : R) :
  (i < length a)%nat -> get (set a i v) i = Some v.
Proof.
  revert i. induction a as [| e a IH]; intros [| i] Hi; cbn in *; try lia.
  - reflexivity.
  - apply IH. lia.
Qed.

Lemma get_set_neq (a : list R) (i j : nat) (v : R) :
  i <> j -> get (set a i v) j = get a j.
Proof.
  revert i j. induction a as [| e a IH]; intros [| i] [| j] Hij; cbn;
    try reflexivity; try lia.
  apply IH. lia.
Qed.

Lemma within_get (bound : R) (a : list R) :
  within bound a <-> forall j e, get a j = Some e -> - bound <= e <= bound.
Proof.
  unfold within, get. rewrite Forall_forall. split.
  - intros H j e Hj. apply H. now apply nth_error_In in Hj.
  - intros H e He. destruct (In_nth_error _ _ He) as [j Hj]. now apply (H j).
Qed.

Lemma within_zeros (bound : R) (n : nat) : 0 <= bound -> within bound (repeat 0 n).
Proof.
  intros Hb. unfold within. apply Forall_forall. intros e He.
  apply repeat_spec in He. subst. lra.
Qed.

(** The divisor of the force is at least 0.1: the force always exists, has
    the sign of [forceDirection], and pulls by at most [gain_bound] on each
    axis. *)
Lemma force_on_bounds (x : R) (mouse vec : Vector3) :
  exists force,
    force_on x mouse vec = Some force /\
    (x < 0 -> 0 < force) /\ (0 <= x -> force < 0) /\
    - 0.15 <= force <= 0.15 /\
    - gain_bound <= force * (vx mouse - vx vec) <= gain_bound /\
    - gain_bound <= force * (vy mouse - vy vec) <= gain_bound /\
    - gain_bound <= force * (vz mouse - vz vec) <= gain_bound.
Proof.
  unfold force_on, distanceTo. cbv zeta.
  set (dx := vx vec - vx mouse). set (dy := vy vec - vy mouse).
  set (dz := vz vec - vz mouse).
  assert (HD : 0 <= dx * dx + dy * dy + dz * dz) by nra.
  rewrite sqrt_sqrt by exact HD.
  set (D2 := dx * dx + dy * dy + dz * dz) in *.
  set (M := Rmax 0.1 D2).
  assert (HM1 : 0.1 <= M) by apply Rmax_l.
  assert (HM2 : D2 <= M) by apply Rmax_r.
  rewrite fdiv_defined by lra. cbn [bind].
  assert (Hinv : 0 < / M <= 10).
  { split; [apply Rinv_0_lt_compat; lra |].
    replace 10 with (/ 0.1) by lra. apply Rinv_le_contravar; lra. }
  assert (HMM : M * / M = 1) by (apply Rinv_r; lra).
  eexists. split; [reflexivity |].
  assert (Hax : forall d, d * d <= D2 ->
            - gain_bound <= / M * 0.015 * d <= gain_bound).
  { intros d Hd. unfold gain_bound.
    assert (Hsq : (/ M * 0.015 * d) * (/ M * 0.015 * d) <= 0.00225).
    { assert (H1 : d * d <= 10 * (M * M)) by nra.
      assert (H2 : (/ M * / M) * (M * M) = 1) by nra.
      assert (H3 : 0 <= / M * / M) by nra.
      assert (H4 : (/ M * / M) * (d * d) <= (/ M * / M) * (10 * (M * M)))
        by (apply Rmult_le_compat_l; assumption).
      nra. }
    split; nra. }
  assert (Hx : (vx mouse - vx vec) * (vx mouse - vx vec) <= D2)
    by (unfold D2, dx; nra).
  assert (Hy : (vy mouse - vy vec) * (vy mouse - vy vec) <= D2)
    by (unfold D2, dy; nra).
  assert (Hz : (vz mouse - vz vec) * (vz mouse - vz vec) <= D2)
    by (unfold D2, dz; nra).
  pose proof (Hax _ Hx) as Bx. pose proof (Hax _ Hy) as By.
  pose proof (Hax _ Hz) as Bz.
  unfold Rdiv. destruct (Rlt_dec x 0) as [Hneg | Hpos].
  - split; [intros _; nra |]. split; [intros; lra |].
    split; [nra |]. repeat split; nra.
  - split; [intros; lra |]. split; [intros _; nra |].
    split; [nra |]. repeat split; nra.
Qed.

Ltac get_set :=
  repeat first [ rewrite get_set_neq by lia
               | rewrite get_set_eq by (rewrite ?length_set; lia) ].

(** One trip of the loop is determinate for a particle inside the arrays,
    keeps the sizes and keeps the damping bounds. *)
Lemma particle_step_damped (count : nat) (x : R) (mouse : Vector3) (i : nat)
    (b : Buffers) :
  (i < count)%nat -> sized count b -> damped b ->
  exists b', particle_step x mouse i b = Some b' /\ sized count b' /\ damped b'.
Proof.
  intros Hi (HlP & HlV & HlA) (HA & HV).
  destruct b as [P V A]. cbn [positions velocities accelerations] in *.
  unfold particle_step. cbn [positions velocities accelerations].
  set (i3 := (i * 3)%nat).
  assert (Hi3 : (i3 + 2 < count * 3)%nat) by (unfold i3; lia).
  destruct (get_some P i3) as [p0 Hp0]; [lia |].
  destruct (get_some P (i3 + 1)) as [p1 Hp1]; [lia |].
  destruct (get_some P (i3 + 2)) as [p2 Hp2]; [lia |].
  destruct (get_some V i3) as [v0 Hv0]; [lia |].
  destruct (get_some V (i3 + 1)) as [v1 Hv1]; [lia |].
  destruct (get_some V (i3 + 2)) as [v2 Hv2]; [lia |].
  destruct (get_some A i3) as [a0 Ha0]; [lia |].
  destruct (get_some A (i3 + 1)) as [a1 Ha1]; [lia |].
  destruct (get_some A (i3 + 2)) as [a2 Ha2]; [lia |].
  unfold fromArray. rewrite Hp0, Hp1, Hp2. cbn [bind].
  destruct (force_on_bounds x mouse (V3 p0 p1 p2))
    as (force & Hf & _ & _ & _ & Gx & Gy & Gz).
  rewrite Hf. cbn [bind vx vy vz] in *.
  set (g0 := force * (vx mouse - p0)) in *.
  set (g1 := force * (vy mouse - p1)) in *.
  set (g2 := force * (vz mouse - p2)) in *.
  unfold add_at, scale_at.
  rewrite Ha0. cbn [bind]. get_set. rewrite Ha1. cbn [bind].
  get_set. rewrite Ha2. cbn [bind]. get_set. cbn [bind].
  rewrite Hv0. cbn [bind]. get_set. cbn [bind].
  rewrite Hv1. cbn [bind]. get_set. cbn [bind].
  rewrite Hv2. cbn [bind]. get_set. cbn [bind].
  rewrite Hp0. cbn [bind]. get_set. cbn [bind].
  rewrite Hp1. cbn [bind]. get_set. cbn [bind].
  rewrite Hp2. cbn [bind]. get_set. cbn [bind].
  get_set. cbn [bind]. get_set. cbn [bind]. get_set. cbn [bind].
  get_set. cbn [bind]. get_set. cbn [bind]. get_set. cbn [bind].
  eexists. split; [reflexivity |].
  rewrite within_get in HA, HV.
  pose proof (HA _ _ Ha0) as Ba0. pose proof (HA _ _ Ha1) as Ba1.
  pose proof (HA _ _ Ha2) as Ba2.
  pose proof (HV _ _ Hv0) as Bv0. pose proof (HV _ _ Hv1) as Bv1.
  pose proof (HV _ _ Hv2) as Bv2.
  unfold acceleration_bound, velocity_bound, gain_bound in *.
  split.
  - unfold sized. cbn [positions velocities accelerations].
    rewrite !length_set. repeat split; assumption.
  - unfold damped. cbn [positions velocities accelerations].
    split; apply within_get; intros j e Hj;
      unfold acceleration_bound, velocity_bound.
    + destruct (Nat.eq_dec j i3) as [-> | N0];
        [revert Hj; get_set; intros [= <-]; lra |].
      destruct (Nat.eq_dec j (i3 + 1)) as [-> | N1];
        [revert Hj; get_set; intros [= <-]; lra |].
      destruct (Nat.eq_dec j (i3 + 2)) as [-> | N2];
        [revert Hj; get_set; intros [= <-]; lra |].
      revert Hj. get_set. intros Hj. exact (HA _ _ Hj).
    + destruct (Nat.eq_dec j i3) as [-> | N0];
        [revert Hj; get_set; intros [= <-]; lra |].
      destruct (Nat.eq_dec j (i3 + 1)) as [-> | N1];
        [revert Hj; get_set; intros [= <-]; lra |].
      destruct (Nat.eq_dec j (i3 + 2)) as [-> | N2];
        [revert Hj; get_set; intros [= <-]; lra |].
      revert Hj. get_set. intros Hj. exact (HV _ _ Hj).
Qed.

Lemma particles_from_damped (count : nat) (x : R) (mouse : Vector3) :
  forall (trips i : nat) (b : Buffers),
    (i + trips <= count)%nat -> sized count b -> damped b ->
    exists b', particles_from trips i x mouse b = Some b' /\
               sized count b' /\ damped b'.
Proof.
  induction trips as [| trips IH]; intros i b Hi Hs Hd.
  - exists b. repeat split; try assumption; apply Hs || apply Hd.
  - destruct (particle_step_damped count x mouse i b ltac:(lia) Hs Hd)
      as (b1 & Hb1 & Hs1 & Hd1).
    cbn [particles_from]. rewrite Hb1. cbn [bind].
    apply IH; [lia | assumption | assumption].
Qed.

Lemma frame_damped (count : nat) (inp : FrameInput) (b : Buffers) :
  viewport_height inp <> 0 -> sized count b -> damped b ->
  exists b', frame count inp b = Some b' /\ sized count b' /\ damped b'.
Proof.
  intros Hh Hs Hd. unfold frame, mouse_target.
  rewrite fdiv_defined by exact Hh. cbn [bind].
  apply particles_from_damped; [lia | assumption | assumption].
Qed.

(** The force on a particle always exists, since its divisor is at least
    0.1.  It attracts (is positive) exactly when the pointer is in the left
    half and repels otherwise; its magnitude is at most 0.15 and the gain it
    gives to each acceleration component is at most 0.0475, however close
    or far the pointer is. *)
Theorem particle_force_capped (x : R) (mouse vec : Vector3) :
  exists force,
    force_on x mouse vec = Some force /\
    (0 < force <-> x < 0) /\ (force < 0 <-> 0 <= x) /\
    Rabs force <= 0.15 /\
    Rabs (force * (vx mouse - vx vec)) <= 0.0475 /\
    Rabs (force * (vy mouse - vy vec)) <= 0.0475 /\
    Rabs (force * (vz mouse - vz vec)) <= 0.0475.
Proof.
  destruct (force_on_bounds x mouse vec)
    as (force & Hf & Hneg & Hpos & Hcap & Gx & Gy & Gz).
  unfold gain_bound in *.
  exists force. split; [exact Hf |].
  split; [split; [| exact Hneg] |].
  { intros Hforce. destruct (Rlt_le_dec x 0) as [H | H]; [exact H |].
    specialize (Hpos H). lra. }
  split; [split; [| exact Hpos] |].
  { intros Hforce. destruct (Rlt_le_dec x 0) as [H | H]; [| exact H].
    specialize (Hneg H). lra. }
  repeat split; apply Rabs_le; lra.
Qed.

(** Starting from the arrays that the component allocates, and whatever the
    pointer does, every frame with a non-zero viewport height is determinate
    and the damping keeps every acceleration component within 2.3275 and
    every velocity component within 116.375. *)
Theorem particle_field_stays_damped (count : nat) (random_positions : list R)
    (inputs : list FrameInput) :
  length random_positions = (count * 3)%nat ->
  Forall (fun inp => viewport_height inp <> 0) inputs ->
  exists b,
    frames count inputs (initial_buffers count random_positions) = Some b /\
    length (positions b) = (count * 3)%nat /\
    Forall (fun a => Rabs a <= 2.3275) (accelerations b) /\
    Forall (fun v => Rabs v <= 116.375) (velocities b).
Proof.
  intros Hlen Hinputs.
  assert (Hgen : forall b0, sized count b0 -> damped b0 ->
            exists b, frames count inputs b0 = Some b /\ sized count b /\ damped b).
  { induction Hinputs as [| inp rest Hh _ IH]; intros b0 Hs Hd.
    - exists b0. repeat split; try assumption; apply Hs || apply Hd.
    - destruct (frame_damped count inp b0 Hh Hs Hd) as (b1 & Hb1 & Hs1 & Hd1).
      cbn [frames]. rewrite Hb1. cbn [bind]. now apply IH. }
  destruct (Hgen (initial_buffers count random_positions))
    as (b & Hb & (HlP & _) & (HA & HV)).
  - unfold sized, initial_buffers. cbn [positions velocities accelerations].
    rewrite !repeat_length. split; [exact Hlen | split; reflexivity].
  - unfold damped, initial_buffers. cbn [velocities accelerations].
    split; apply within_zeros; unfold acceleration_bound, velocity_bound; lra.
  - exists b. split; [exact Hb | split; [exact HlP |]].
    unfold within, acceleration_bound, velocity_bound in *.
    split; eapply Forall_impl; try eassumption; cbv beta; intros e He;
      apply Rabs_le; exact He.
Qed.

Lemma particle_field_stays_damped_witness :
  exists b,
    frames 1 [{| viewport_width := 4; viewport_height := 3;
                 pointer_x := -0.5; pointer_y := 0.25 |}]
           (initial_buffers 1 [1; 2; 3]) = Some b /\
    Forall (fun a => Rabs a <= 2.3275) (accelerations b).
Proof.
  destruct (particle_field_stays_damped 1 [1; 2; 3]
              [{| viewport_width := 4; viewport_height := 3;
                  pointer_x := -0.5; pointer_y := 0.25 |}])
    as (b & Hb & _ & HA & _).
  - reflexivity.
  - constructor; [cbn; lra | constructor].
  - exists b. split; assumption.
Defined.

End Particles.

(** * The breathing animation *)
Section Breathing.
Import ParticleField ThreeScene.

Lemma wave_bound (u v : R) : - (0.2) <= sin u * cos v * 0.2 <= 0.2.
Proof.
  pose proof (SIN_bound u) as Hs. pose proof (COS_bound v) as Hc.
  assert (-1 <= sin u * cos v <= 1) by (split; nra).
  lra.
Qed.

Lemma wave_bound' (u v : R) : - (0.2) <= cos u * sin v * 0.2 <= 0.2.
Proof. rewrite (Rmult_comm (cos u)). apply wave_bound. Qed.

Lemma displaced_near (time : R) (original : Vector3) :
  Rabs (vx (displaced time original) - vx original) <= 0.2 /\
  Rabs (vy (displaced time original) - vy original) <= 0.2 /\
  Rabs (vz (displaced time original) - vz original) <= 0.2.
Proof.
  unfold displaced. cbv zeta. cbn [vx vy vz].
  repeat split; apply Rabs_le;
    match goal with
    | |- _ <= ?o + ?w - ?o <= _ => replace (o + w - o) with w by ring
    end; (apply wave_bound || apply wave_bound').
Qed.

(** The animation keeps as many vertices as there are original positions
    and moves no vertex by more than 0.2 along any axis from its original
    position, at any time: at every clock reading, and for every real value
    of the time variable as well. *)
Theorem breathing_amplitude (now : Z) (originalPositions : list Vector3) :
  length (animate now originalPositions) = length originalPositions /\
  (forall i original,
     nth_error originalPositions i = Some original ->
     exists p,
       nth_error (animate now originalPositions) i = Some p /\
       Rabs (vx p - vx original) <= 0.2 /\
       Rabs (vy p - vy original) <= 0.2 /\
       Rabs (vz p - vz original) <= 0.2) /\
  (forall (time : R) (original : Vector3),
     Rabs (vx (displaced time original) - vx original) <= 0.2 /\
     Rabs (vy (displaced time original) - vy original) <= 0.2 /\
     Rabs (vz (displaced time original) - vz original) <= 0.2).
Proof.
  unfold animate. split; [apply length_map |].
  split; [| apply displaced_near].
  intros i original Hi. eexists. split.
  - rewrite nth_error_map, Hi. reflexivity.
  - apply displaced_near.
Qed.

Lemma breathing_amplitude_witness :
  exists p,
    nth_error (animate 1000 [V3 1 2 3]) 0 = Some p /\
    Rabs (vx p - 1) <= 0.2.
Proof.
  destruct (proj1 (proj2 (breathing_amplitude 1000 [V3 1 2 3]))
              0%nat (V3 1 2 3) eq_refl)
    as (p & Hp & Hx & _).
  exists p. split; assumption.
Defined.

End Breathing.

(** * The memory read-out *)
Section MemoryReadout.
Import QArith Qround String.
Import MetricsDisplay.
Local Open Scope Z_scope.

Lemma megabytes_below_1024 (kb : Z) :
  (inject_Z kb / 1024 < 1024)%Q <-> kb < 1048576.
Proof. unfold Qlt, Qdiv, Qmult, Qinv, inject_Z. cbn. lia. Qed.

Lemma megabytes_nonneg (kb : Z) : 0 <= kb -> (0 <= inject_Z kb / 1024)%Q.
Proof. unfold Qle, Qdiv, Qmult, Qinv, inject_Z. cbn. lia. Qed.

Lemma nearest_hundredth_megabytes (kb : Z) :
  nearest_hundredth (inject_Z kb / 1024) = (200 * kb + 1024) / 2048.
Proof.
  unfold nearest_hundredth, Qfloor, Qplus, Qdiv, Qmult, Qinv, inject_Z.
  cbn [Qnum Qden].
  change (Z.pos (1 * 1024 * 1)) with 1024.
  change (Z.pos (1 * 1024 * 1 * 2)) with 2048.
  f_equal. lia.
Qed.

(** Between 1024 KB and 1 GiB the read-out is the megabyte count rounded to
    the nearest hundredth, shown with two decimals: the shown value is within
    0.005 of [kb / 1024] and lies between 1.00 and 1024.00.  The top five
    counts, from 1048571 KB on, are shown as 1024.00 MB. *)
Theorem format_memory_megabytes (kb : Z) :
  1024 <= kb -> kb < 1048576 ->
  let n := nearest_hundredth (inject_Z kb / 1024) in
  formatMemory kb = (insert_point (pad3 (number_to_string n)) ++ " MB")%string /\
  100 <= n <= 102400 /\
  Z.abs (1024 * n - 100 * kb) <= 512 /\
  (n = 102400 <-> 1048571 <= kb) /\
  (n = 102400 ->
   formatMemory kb = "1024.00 MB"%string).
Proof.
  intros Hlo Hhi n.
  assert (Hfmt : formatMemory kb
                 = (insert_point (pad3 (number_to_string n)) ++ " MB")%string).
  { unfold formatMemory.
    destruct (Z.ltb_spec kb 1024) as [Hlt | _]; [lia |].
    cbv zeta.
    destruct (Qlt_le_dec (inject_Z kb / 1024) 1024) as [_ | Hge].
    - unfold toFixed2.
      destruct (Qlt_le_dec (inject_Z kb / 1024) 0) as [Hneg | _]; [| reflexivity].
      exfalso. pose proof (megabytes_nonneg kb ltac:(lia)) as Hnn.
      exact (Qlt_not_le _ _ Hneg Hnn).
    - exfalso. apply (Qle_not_lt _ _ Hge). now apply megabytes_below_1024. }
  subst n. rewrite nearest_hundredth_megabytes in *.
  pose proof (Z_div_mod_eq_full (200 * kb + 1024) 2048) as Hdm.
  pose proof (Z.mod_pos_bound (200 * kb + 1024) 2048 ltac:(lia)) as Hmod.
  set (n := (200 * kb + 1024) / 2048) in *.
  split; [exact Hfmt |].
  split; [lia |]. split; [lia |]. split; [lia |].
  intros Hn. rewrite Hfmt, Hn. reflexivity.
Qed.

Lemma format_memory_megabytes_witness :
  formatMemory 1048575 = "1024.00 MB"%string.
Proof.
  refine (proj2 (proj2 (proj2 (proj2
           (format_memory_megabytes 1048575 ltac:(lia) ltac:(lia))))) _).
  vm_compute. reflexivity.
Defined.

End MemoryReadout.

(** * The chat panel *)
Section Chat.
Import AgiInterface.

Lemma forallb_trimStart (s : jsstring) :
  forallb is_white_space (trimStart s) = forallb is_white_space s.
Proof.
  induction s as [| c rest IH]; [reflexivity |].
  cbn [trimStart forallb].
  destruct (is_white_space c) eqn:E; cbn [andb].
  - exact IH.
  - cbn [forallb]. now rewrite E.
Qed.

Lemma trimStart_nil_iff (s : jsstring) :
  trimStart s = [] <-> forallb is_white_space s = true.
Proof.
  induction s as [| c rest IH]; cbn [trimStart forallb]; [tauto |].
  destruct (is_white_space c); cbn [andb]; [exact IH |].
  split; discriminate.
Qed.

Lemma forallb_rev (f : Z -> bool) (l : list Z) : forallb f (rev l) = forallb f l.
Proof.
  destruct (forallb f l) eqn:E.
  - rewrite forallb_forall in *. intros x Hx. apply E. now apply in_rev.
  - destruct (forallb f (rev l)) eqn:E'; [| reflexivity].
    rewrite forallb_forall in E'.
    assert (forallb f l = true)
      by (apply forallb_forall; intros x Hx; apply E'; now apply in_rev in Hx).
    congruence.
Qed.

(** [!input.trim()] holds exactly for the inputs made of white space only. *)
Lemma blank_iff (s : jsstring) :
  falsy (trim s) = true <-> forallb is_white_space s = true.
Proof.
  unfold trim.
  rewrite <- (forallb_trimStart s), <- (forallb_rev _ (trimStart s)).
  rewrite <- trimStart_nil_iff.
  destruct (trimStart (rev (trimStart s))) as [| c l]; cbn [rev falsy].
  - tauto.
  - destruct (rev l ++ [c]) eqn:E; [now destruct (rev l) | split; discriminate].
Qed.

Lemma sent_by_app (who : Sender) (a b : list Message) :
  sent_by who (a ++ b) = (sent_by who a + sent_by who b)%nat.
Proof. unfold sent_by. now rewrite filter_app, length_app. Qed.

Lemma settled_or_pending_step (w : Session) (e : Event) :
  settled_or_pending sent_by w -> settled_or_pending sent_by (step w e).
Proof.
  unfold settled_or_pending. intros Hw.
  destruct w as [[st ms inp] n pending]. cbn [ui status messages in_flight
    status_in_flight] in Hw.
  destruct e as [s | | r | r]; cbn [step ui status messages in_flight
    status_in_flight input].
  - exact Hw.
  - unfold handleSubmit. cbn [input status messages].
    destruct (falsy (trim inp) || negb (is_online st))%bool eqn:Eg;
      cbn [ui status messages in_flight status_in_flight]; [exact Hw |].
    apply Bool.orb_false_elim in Eg. destruct Eg as [_ Eon].
    destruct st; cbn in Eon; try discriminate.
    destruct Hw as (Hp & conv & Hms & Hcount). split; [exact Hp |].
    exists (conv ++ [{| sender := user; text := JString inp;
                        cognitiveMode := None |}]).
    split; [now rewrite Hms |].
    rewrite !sent_by_app. cbn. lia.
  - destruct pending; cbn [ui status messages in_flight status_in_flight];
      [| exact Hw].
    destruct st; try (destruct Hw; discriminate).
    destruct Hw as (_ & -> & ->).
    destruct r as [[|] | |]; cbn [checkStatus ui status messages in_flight
      status_in_flight input].
    + split; [reflexivity |]. exists []. split; reflexivity.
    + repeat split.
    + repeat split.
    + repeat split.
  - destruct n as [| n]; cbn [ui status messages in_flight status_in_flight];
      [exact Hw |].
    destruct st; try (destruct Hw as (_ & _ & Hz); discriminate).
    destruct Hw as (Hp & conv & Hms & Hcount). split; [exact Hp |].
    exists (conv ++ [agiResponse r]). split; [now rewrite Hms |].
    rewrite !sent_by_app.
    assert (Hr : sent_by agi [agiResponse r] = 1%nat /\
                 sent_by user [agiResponse r] = 0%nat)
      by (destruct r; split; reflexivity).
    destruct Hr as [-> ->]. lia.
Qed.

Lemma settled_or_pending_run (events : list Event) :
  forall w, settled_or_pending sent_by w ->
            settled_or_pending sent_by (fold_left step events w).
Proof.
  induction events as [| e rest IH]; intros w Hw; [exact Hw |].
  cbn [fold_left]. apply IH. now apply settled_or_pending_step.
Qed.

(** Whatever the user and the server do, the panel is in one of three
    situations.  While the status is [loading] the status request is still in
    flight and nothing has been said.  When it is [offline] there is no user
    message and no request in flight.  When it is [online] the conversation
    starts with the greeting and every user message has exactly one reply or
    one request still in flight: once all requests have settled, replies and
    questions are equal in number. *)
Theorem conversation_invariant (events : list Event) :
  settled_or_pending sent_by (run events) /\
  (status (ui (run events)) = online ->
   in_flight (run events) = O ->
   exists conversation,
     messages (ui (run events)) = greeting_message :: conversation /\
     sent_by user conversation = sent_by agi conversation).
Proof.
  assert (Hinv : settled_or_pending sent_by (run events)).
  { apply settled_or_pending_run. cbn. repeat split. }
  split; [exact Hinv |].
  intros Hon Hzero. unfold settled_or_pending in Hinv. rewrite Hon in Hinv.
  destruct Hinv as (_ & conv & Hms & Hcount).
  exists conv. split; [exact Hms | lia].
Qed.

Lemma conversation_invariant_witness :
  exists conversation,
    messages (ui (run [StatusSettled (StatusJson true); Typed [104%Z; 105%Z];
                       Submitted; StimulateSettled ReplyThrown]))
      = greeting_message :: conversation /\
    sent_by user conversation = sent_by agi conversation.
Proof.
  apply (proj2 (conversation_invariant
                  [StatusSettled (StatusJson true); Typed [104%Z; 105%Z];
                   Submitted; StimulateSettled ReplyThrown]));
    reflexivity.
Defined.

(** [handleSubmit] sends nothing exactly when the panel is not online or the
    input consists of white space only, which is exactly when the submit
    button is disabled; it then leaves the state as it is.  Otherwise the
    prompt is the input as typed (not trimmed), the user message carries the
    same text, and the input field is cleared. *)
Theorem submit_guard (st : State) :
  (snd (handleSubmit st) = None <->
   status st <> online \/ forallb is_white_space (input st) = true) /\
  (button_disabled st = true <-> snd (handleSubmit st) = None) /\
  (snd (handleSubmit st) = None -> fst (handleSubmit st) = st) /\
  (forall prompt,
     snd (handleSubmit st) = Some prompt ->
     prompt = input st /\
     fst (handleSubmit st) =
     {| status := online;
        messages := messages st
                    ++ [{| sender := user; text := JString (input st);
                           cognitiveMode := None |}];
        input := [] |}).
Proof.
  unfold handleSubmit, button_disabled.
  pose proof (blank_iff (input st)) as Hblank.
  destruct st as [s ms inp]. cbn [status messages input] in *.
  destruct (falsy (trim inp)) eqn:Ef; destruct s;
    cbn [is_online negb orb fst snd].
  all: split;
    [ split;
      [ first [ discriminate
              | intros _; first [ left; discriminate
                                | right; now apply Hblank ] ]
      | first [ reflexivity
              | intros [Hs | Hw];
                [ now elim Hs | apply Hblank in Hw; congruence ] ] ]
    | split;
      [ split; first [ reflexivity | discriminate ]
      | split;
        [ first [ reflexivity | discriminate ]
        | intros prompt Hp; first [ discriminate
                                  | injection Hp as <-; split; reflexivity ] ] ] ].
Qed.

Lemma submit_guard_witness :
  snd (handleSubmit {| status := online; messages := []; input := [32%Z; 104%Z] |})
  = Some [32%Z; 104%Z].
Proof.
  destruct (handleSubmit {| status := online; messages := [];
                            input := [32%Z; 104%Z] |}) as [st' [prompt |]] eqn:E.
  - destruct (proj2 (proj2 (proj2
      (submit_guard {| status := online; messages := [];
                       input := [32%Z; 104%Z] |}))) prompt) as [Hp _].
    + rewrite E. reflexivity.
    + cbn [snd]. now rewrite Hp.
  - discriminate E.
Defined.

(** Once the panel is online it stays online: no later event, not even a
    stimulation request that fails or cannot reach the server, changes the
    status. *)
Theorem online_is_permanent (events more : list Event) :
  status (ui (run events)) = online ->
  status (ui (run (events ++ more))) = online.
Proof.
  unfold run. rewrite fold_left_app.
  assert (Hinv : settled_or_pending sent_by (fold_left step events mounted)).
  { apply settled_or_pending_run. cbn. repeat split. }
  revert Hinv. generalize (fold_left step events mounted).
  induction more as [| e rest IH]; intros w Hinv Hon; [exact Hon |].
  cbn [fold_left]. apply IH; [now apply settled_or_pending_step |].
  unfold settled_or_pending in Hinv. rewrite Hon in Hinv.
  destruct Hinv as (Hp & _).
  destruct w as [[st ms inp] n pending].
  cbn [ui status status_in_flight] in *. subst st pending.
  destruct e as [s | | r | r]; cbn [step ui status status_in_flight in_flight].
  - reflexivity.
  - unfold handleSubmit. cbn [input status].
    now destruct (falsy (trim inp) || negb (is_online online))%bool.
  - reflexivity.
  - now destruct n.
Qed.

Lemma online_is_permanent_witness :
  status (ui (run ([StatusSettled (StatusJson true)]
                   ++ [Typed [104%Z; 105%Z]; Submitted;
                       StimulateSettled ReplyThrown]))) = online.
Proof. apply online_is_permanent. reflexivity. Defined.

Lemma own_texts_not_empty :
  greeting <> [] /\ connection_error <> [] /\ no_answer <> [] /\
  stimulation_error <> [] /\ unreachable <> [].
Proof. repeat split; discriminate. Qed.

Lemma own_texts_truthy :
  truthy (JString greeting) = true /\ truthy (JString connection_error) = true /\
  truthy (JString no_answer) = true /\ truthy (JString stimulation_error) = true /\
  truthy (JString unreachable) = true.
Proof. repeat split; reflexivity. Qed.

Lemma agiResponse_truthy (r : StimulateReply) : truthy (text (agiResponse r)) = true.
Proof.
  destruct r as [[v |] mode | |]; cbn [agiResponse text response_or_default];
    try reflexivity.
  destruct (truthy v) eqn:E; [exact E | reflexivity].
Qed.

(** No message carries a falsy text: a reply whose [response] is missing,
    [null], [false], [0] or the empty string is replaced by the default
    sentence, the sentences that the panel writes itself are not empty, and
    the text of a user message is a string that is not made of white space
    only. *)
Theorem no_falsy_message (events : list Event) (m : Message) :
  In m (messages (ui (run events))) ->
  truthy (text m) = true /\
  text m <> JString [] /\
  (sender m = user ->
   exists s, text m = JString s /\ forallb is_white_space s = false).
Proof.
  unfold run.
  set (ok := fun m : Message =>
               truthy (text m) = true /\
               (sender m = user ->
                exists s, text m = JString s /\
                          forallb is_white_space s = false)).
  assert (Hgen : forall w,
            Forall ok (messages (ui w)) ->
            Forall ok (messages (ui (fold_left step events w)))).
  { induction events as [| e rest IH]; intros w Hw; [exact Hw |].
    cbn [fold_left]. apply IH.
    destruct w as [[st ms inp] n pending]. cbn [ui messages] in Hw.
    destruct e as [s | | r | r]; cbn [step ui status messages in_flight
      status_in_flight input].
    - exact Hw.
    - unfold handleSubmit. cbn [input status messages].
      destruct (falsy (trim inp) || negb (is_online st))%bool eqn:Eg;
        cbn [ui messages]; [exact Hw |].
      apply Bool.orb_false_elim in Eg. destruct Eg as [Ef _].
      apply Forall_app. split; [exact Hw |].
      constructor; [| constructor]. unfold ok. cbn [text sender].
      assert (Hnb : forallb is_white_space inp = false).
      { destruct (forallb is_white_space inp) eqn:E; [| reflexivity].
        apply blank_iff in E. congruence. }
      split; [| intros _; exists inp; split; [reflexivity | exact Hnb]].
      cbn [truthy]. destruct inp; [discriminate Hnb | reflexivity].
    - destruct pending; cbn [ui messages]; [| exact Hw].
      destruct r as [[|] | |]; cbn [checkStatus messages]; try exact Hw;
        (constructor; [| constructor]); unfold ok; cbn [text sender];
        (split; [reflexivity | discriminate]).
    - destruct n; cbn [ui messages]; [exact Hw |].
      cbn [handleSubmit_settled messages].
      apply Forall_app. split; [exact Hw |].
      constructor; [| constructor].
      split; [apply agiResponse_truthy | destruct r; discriminate]. }
  intros Hin.
  specialize (Hgen mounted (Forall_nil _)).
  rewrite Forall_forall in Hgen. destruct (Hgen m Hin) as [Ht Hu].
  split; [exact Ht | split; [| exact Hu]].
  intros E. rewrite E in Ht. discriminate Ht.
Qed.

(** A session in which the server answers with an empty [response]: the
    reply shown is the default sentence. *)
Lemma no_falsy_message_witness :
  truthy (text {| sender := agi; text := JString no_answer;
                  cognitiveMode := None |}) = true.
Proof.
  refine (proj1 (no_falsy_message
    [StatusSettled (StatusJson true); Typed [104%Z; 105%Z]; Submitted;
     StimulateSettled (ReplyJson (Some (JString [])) None)]
    {| sender := agi; text := JString no_answer; cognitiveMode := None |} _)).
  cbn. right. right. left. reflexivity.
Defined.

End Chat.

(** * The two waveform renderers side by side *)
Section WaveformLayout.
Import Wgsl Geometry.

Lemma index_in (a : list R) (i : Z) (e : R) : index a i = Some e -> In e a.
Proof.
  unfold index. destruct (i <? 0)%Z; [discriminate |]. apply nth_error_In.
Qed.

(** With at least two samples in [-1, 1] and a positive resolution, both end
    points of every segment of the Waveform-SDF polyline lie in the pixel
    rectangle; the polyline starts at the left edge and ends at the right
    edge. *)
Theorem sdf_polyline_in_rectangle (uniforms : WaveformSDF.Uniforms)
    (eeg_data : list R) (i : Z) :
  (2 <= arrayLength eeg_data)%Z ->
  (0 <= i < arrayLength eeg_data - 1)%Z ->
  0 < WaveformSDF.resolution_x uniforms ->
  0 < WaveformSDF.resolution_y uniforms ->
  Forall (fun e => -1 <= e <= 1) eeg_data ->
  exists p1 p2,
    WaveformSDF.segment uniforms eeg_data i = Some (p1, p2) /\
    (0 <= x2 p1 <= WaveformSDF.resolution_x uniforms /\
     0 <= y2 p1 <= WaveformSDF.resolution_y uniforms) /\
    (0 <= x2 p2 <= WaveformSDF.resolution_x uniforms /\
     0 <= y2 p2 <= WaveformSDF.resolution_y uniforms) /\
    (i = 0%Z -> x2 p1 = 0) /\
    (i = (arrayLength eeg_data - 2)%Z -> x2 p2 = WaveformSDF.resolution_x uniforms).
Proof.
  intros HN Hi Hx Hy Hall.
  destruct (sdf_segment_defined uniforms eeg_data i HN Hi)
    as (e1 & e2 & He1 & He2 & Hseg).
  rewrite Forall_forall in Hall.
  pose proof (Hall _ (index_in _ _ _ He1)) as B1.
  pose proof (Hall _ (index_in _ _ _ He2)) as B2.
  assert (Hden : 0 < IZR (arrayLength eeg_data - 1)) by (apply IZR_lt; lia).
  assert (Hq1 : 0 <= IZR i / IZR (arrayLength eeg_data - 1) <= 1).
  { apply quotient_unit; [| exact Hden].
    split; apply IZR_le; lia. }
  assert (Hq2 : 0 <= IZR (i + 1) / IZR (arrayLength eeg_data - 1) <= 1).
  { apply quotient_unit; [| exact Hden].
    split; apply IZR_le; lia. }
  do 2 eexists. split; [exact Hseg |]. cbn [x2 y2].
  split; [split; split; nra |].
  split; [split; split; nra |].
  split.
  - intros ->. unfold Rdiv. lra.
  - intros ->.
    replace (arrayLength eeg_data - 2 + 1)%Z with (arrayLength eeg_data - 1)%Z by lia.
    unfold Rdiv. rewrite Rinv_r by lra. lra.
Qed.

Lemma sdf_polyline_in_rectangle_witness :
  exists p1 p2,
    WaveformSDF.segment
      {| WaveformSDF.time := 0; WaveformSDF.resolution_x := 800;
         WaveformSDF.resolution_y := 600; WaveformSDF.num_columns := 0 |}
      [0; 0] 0 = Some (p1, p2) /\
    x2 p1 = 0 /\ x2 p2 = 800.
Proof.
  destruct (sdf_polyline_in_rectangle
    {| WaveformSDF.time := 0; WaveformSDF.resolution_x := 800;
       WaveformSDF.resolution_y := 600; WaveformSDF.num_columns := 0 |}
    [0; 0] 0) as (p1 & p2 & Hseg & _ & _ & Hfirst & Hlast).
  - vm_compute. discriminate.
  - vm_compute. split; [discriminate | reflexivity].
  - cbn. lra.
  - cbn. lra.
  - repeat constructor; lra.
  - exists p1, p2. split; [exact Hseg |]. split.
    + now apply Hfirst.
    + now apply Hlast.
Defined.

(** The two waveform renderers place sample [i] at the same horizontal
    pixel position, but not at the same height: seen in pixels, the vertex of
    the Waveform-Direct strip is half as far from the middle line of the
    target as the corresponding end point of the Waveform-SDF polyline. *)
Theorem waveform_renderers_layout (uniforms : WaveformSDF.Uniforms)
    (eeg_data : list R) (i : Z) :
  (2 <= arrayLength eeg_data)%Z ->
  (0 <= i < arrayLength eeg_data - 1)%Z ->
  exists p1 p2 x y,
    WaveformSDF.segment uniforms eeg_data i = Some (p1, p2) /\
    WaveformDirect.clip_position (WaveformDirect.vs_main eeg_data i)
      = WaveformDirect.OVec4 (Some x) (Some y) (Some 0) (Some 1) /\
    x2 (WaveformSDF.frag_coord_px uniforms
          {| WaveformSDF.clip_position := Vec4 x y 0 1;
             WaveformSDF.frag_coord := Vec2 x y |}) = x2 p1 /\
    y2 (WaveformSDF.frag_coord_px uniforms
          {| WaveformSDF.clip_position := Vec4 x y 0 1;
             WaveformSDF.frag_coord := Vec2 x y |})
      - WaveformSDF.resolution_y uniforms / 2
    = (y2 p1 - WaveformSDF.resolution_y uniforms / 2) / 2.
Proof.
  intros HN Hi.
  destruct (sdf_segment_defined uniforms eeg_data i HN Hi)
    as (e1 & e2 & He1 & _ & Hseg).
  destruct (direct_in_range eeg_data i HN ltac:(lia)) as (e & He & Hpos).
  rewrite He1 in He. injection He as <-.
  do 4 eexists. split; [exact Hseg |]. split; [exact Hpos |].
  unfold WaveformSDF.frag_coord_px, WaveformSDF.resolution, divs2, adds2, mul2,
    zip2, map2.
  cbn [x2 y2 WaveformSDF.frag_coord].
  split; nra.
Qed.

Lemma waveform_renderers_layout_witness :
  exists p1 p2 x y,
    WaveformSDF.segment
      {| WaveformSDF.time := 0; WaveformSDF.resolution_x := 800;
         WaveformSDF.resolution_y := 600; WaveformSDF.num_columns := 0 |}
      [0.2; 0.4; 0.6] 1 = Some (p1, p2) /\
    WaveformDirect.clip_position (WaveformDirect.vs_main [0.2; 0.4; 0.6] 1)
      = WaveformDirect.OVec4 (Some x) (Some y) (Some 0) (Some 1).
Proof.
  destruct (waveform_renderers_layout
    {| WaveformSDF.time := 0; WaveformSDF.resolution_x := 800;
       WaveformSDF.resolution_y := 600; WaveformSDF.num_columns := 0 |}
    [0.2; 0.4; 0.6] 1) as (p1 & p2 & x & y & Hseg & Hpos & _).
  - vm_compute. discriminate.
  - vm_compute. split; [discriminate | reflexivity].
  - exists p1, p2, x, y. split; assumption.
Defined.

End WaveformLayout.
